(** * Guardrails adapter for LangChain chat models: model and properties

    A shallow embedding of [index.ts]: the validation client
    ([validateWithGuardrails] with its Zod schema), the two conditions built
    on it, and the proxy returned by [withGuardrails] with its four
    intercepted operations ([invoke], [stream], [bindTools], [withConfig]).

    The code is asynchronous but strictly sequential (every call is awaited
    before the next statement runs), so an operation is modelled as a
    computation in a small monad that threads the number of requests sent to
    the validation service so far, records the observable events in order
    (requests sent, calls to the wrapped model, fragments pulled from the
    wrapped stream, chunks yielded to the consumer) and ends either with a
    value or with a thrown exception.  The guarded stream is a lazy
    generator; its run is the one a consumer sees who iterates it to the
    end, and the order of the events shows what has been pulled from the
    source when a chunk is yielded. *)

From Stdlib Require Import String Ascii List ZArith Bool Lia Arith DecimalString.
Import ListNotations.
Local Open Scope string_scope.
Local Open Scope list_scope.

Set Implicit Arguments.
Set Warnings "-register-all".

(** ** JavaScript values and exceptions *)

(** The value [res.json()] resolves to.  An object is the list of its
    bindings, one per key; a property read takes the first binding. *)
Inductive json : Type :=
| JNull
| JBool (b : bool)
| JNumber (n : Z)
| JString (s : string)
| JArray (items : list json)
| JObject (fields : list (string * json)).

Fixpoint get_prop (key : string) (fields : list (string * json)) : option json :=
  match fields with
  | [] => None
  | (k, v) :: rest => if String.eqb k key then Some v else get_prop key rest
  end.

Inductive ZodIssueCode : Type := invalid_type | invalid_value.

Record ZodIssue : Type := mkIssue {
  issue_code : ZodIssueCode;
  issue_path : list string
}.

(** What a [throw] can carry: an [Error] object (with the [code] property
    some client libraries attach to it, when there is one), the [ZodError]
    of a failed [parse], or any other value. *)
Inductive Exn : Type :=
| JsError (message : string) (code : option json)
| ZodError (issues : list ZodIssue)
| ThrownValue (v : json).

Inductive Outcome (A : Type) : Type :=
| Return (a : A)
| Throw (e : Exn).

Arguments Return {A} a.
Arguments Throw {A} e.

(** JavaScript truthiness of a string, and [s || d] on an optional string
    ([undefined] and the empty string are both falsy). *)
Definition truthy_string (s : string) : bool :=
  match s with
  | EmptyString => false
  | String _ _ => true
  end.

Definition or_default (o : option string) (d : string) : string :=
  match o with
  | Some s => if truthy_string s then s else d
  | None => d
  end.

(** [a % b === 0] on integers: the remainder takes the sign of the dividend
    and is [NaN] when [b] is zero, and [NaN === 0] is false. *)
Definition js_rem (a b : Z) : option Z :=
  if Z.eqb b 0 then None else Some (Z.rem a b).

Definition rem_is_zero (a b : Z) : bool :=
  match js_rem a b with
  | Some r => Z.eqb r 0
  | None => false
  end.

(** ** Constants *)

Definition DEFAULT_CHUNK_BATCH_SIZE : Z := 200.
Definition DEFAULT_BASE_URL : string := "https://gr-prd.aporia.com".
Definition PROMPT_OVERRIDE : string := "[Prompt intercepted: custom response]".
Definition RESPONSE_OVERRIDE : string := "[Response intercepted: custom override]".
Definition CONTENT_FILTER_APOLOGY : string :=
  "I'm sorry, but I can't assist with that request.".

(** ** The response schema *)

Inductive Action : Type := modify | passthrough | block | rephrase.

(** The value [GuardrailsResponseSchema.parse] returns: the two checked
    fields, and the other bindings of the reply, which a loose object keeps
    as they are. *)
Record GuardrailsResponse : Type := mkGuardrailsResponse {
  action : Action;
  revised_response : option string;
  other_fields : list (string * json)
}.

(** [z.enum(["modify", "passthrough", "block", "rephrase"])] *)
Definition parse_action (v : option json) : ZodIssue + Action :=
  match v with
  | Some (JString s) =>
      if String.eqb s "modify" then inr modify
      else if String.eqb s "passthrough" then inr passthrough
      else if String.eqb s "block" then inr block
      else if String.eqb s "rephrase" then inr rephrase
      else inl (mkIssue invalid_value ["action"])
  | _ => inl (mkIssue invalid_value ["action"])
  end.

(** [z.string().nullable()]: a string or [null]; a missing property reads
    as [undefined], which is neither. *)
Definition parse_revised_response (v : option json) : ZodIssue + option string :=
  match v with
  | Some (JString s) => inr (Some s)
  | Some JNull => inr None
  | _ => inl (mkIssue invalid_type ["revised_response"])
  end.

Definition issues_of {A : Type} (r : ZodIssue + A) : list ZodIssue :=
  match r with
  | inl i => [i]
  | inr _ => []
  end.

Definition is_schema_key (k : string) : bool :=
  String.eqb k "action" || String.eqb k "revised_response".

(** [z.looseObject({ action, revised_response }).parse(raw)] *)
Definition GuardrailsResponseSchema_parse (raw : json) : Outcome GuardrailsResponse :=
  match raw with
  | JObject fields =>
      let a := parse_action (get_prop "action" fields) in
      let r := parse_revised_response (get_prop "revised_response" fields) in
      match a, r with
      | inr a', inr r' =>
          Return (mkGuardrailsResponse a' r'
                    (filter (fun kv => negb (is_schema_key (fst kv))) fields))
      | _, _ => Throw (ZodError (issues_of a ++ issues_of r))
      end
  | _ => Throw (ZodError [mkIssue invalid_type []])
  end.

(** The property of a reply, read as the schema reads it. *)
Definition field (key : string) (raw : json) : option json :=
  match raw with
  | JObject fields => get_prop key fields
  | _ => None
  end.

Definition action_name (a : Action) : string :=
  match a with
  | modify => "modify"
  | passthrough => "passthrough"
  | block => "block"
  | rephrase => "rephrase"
  end.

(** The property is one of the four action strings. *)
Definition recognized_action (v : option json) : Prop :=
  exists a, v = Some (JString (action_name a)).

(** The property is there and holds a string or [null]. *)
Definition string_or_null (v : option json) : Prop :=
  v = Some JNull \/ exists s, v = Some (JString s).

(** The property holds a string or [null], or the reply has no such
    property. *)
Definition string_or_absent (v : option json) : Prop :=
  v = None \/ string_or_null v.

(** ** Messages *)

(** An [AIMessage] and an [AIMessageChunk]: the text content, which is
    what this layer reads (the source casts [content] to [string]), and
    the remaining properties, which it only passes along.  The constructors
    called with a content alone leave the rest empty. *)
Record AIMessage : Type := mkAIMessage {
  msg_content : string;
  msg_fields : list (string * json)
}.

Record AIMessageChunk : Type := mkAIMessageChunk {
  chunk_content : string;
  chunk_fields : list (string * json)
}.

Definition new_AIMessage (content : string) : AIMessage :=
  mkAIMessage content [].

Definition new_AIMessageChunk (content : string) : AIMessageChunk :=
  mkAIMessageChunk content [].

(** The async iterator a wrapped [stream] resolves to, as the consumer
    sees it: the fragments it delivers, and how it ends, either by
    completing ([None]) or by throwing. *)
Record Source : Type := mkSource {
  src_chunks : list AIMessageChunk;
  src_failure : option Exn
}.

(** ** HTTP *)

Inductive ValidationTarget : Type := target_prompt | target_response.

Record Payload (P : Type) : Type := mkPayload {
  payload_messages : list P;
  payload_response : string;
  payload_validation_target : ValidationTarget
}.

(** The request [fetch] is given: a POST of the JSON payload to [req_url]
    with the API key in the [X-APORIA-API-KEY] header. *)
Record HttpRequest (P : Type) : Type := mkRequest {
  req_url : string;
  req_api_key : string;
  req_body : Payload P
}.

Record HttpResponse : Type := mkResponse {
  res_status : nat;
  res_statusText : string;
  res_json : Outcome json
}.

(** [res.ok] *)
Definition res_ok (res : HttpResponse) : bool :=
  (200 <=? res_status res)%nat && (res_status res <=? 299)%nat.

(** ** Collaborators

    Everything the adapter calls and does not define: the LangChain types
    and conversions, the wrapped model class [Model] (the type parameter
    [T] of [withGuardrails]) with the four operations the proxy intercepts,
    and the network.  [bindTools] is an optional method of a chat model, the
    other three always exist.  The validation service may answer the same
    request differently over time, so [fetch] also takes the number of
    requests sent before. *)
Class Collaborators : Type := {
  Input : Type;
  CallOptions : Type;
  BaseMessage : Type;
  OpenAIParam : Type;
  ToolArgs : Type;
  RunnableConfig : Type;
  Model : Type;
  convertMessagesToOpenAIParams : list BaseMessage -> list OpenAIParam;
  convertInputToChatMessages : Input -> Outcome (list BaseMessage);
  orig_invoke : Model -> Input -> CallOptions -> Outcome AIMessage;
  orig_stream : Model -> Input -> CallOptions -> Outcome Source;
  orig_bindTools : Model -> option (ToolArgs -> Outcome Model);
  orig_withConfig : Model -> RunnableConfig -> Outcome Model;
  fetch : nat -> HttpRequest OpenAIParam -> Outcome HttpResponse
}.

Section Adapter.

Context {W : Collaborators}.

(** ** Events and the monad of operations *)

(** What an operation does that can be observed from outside: a request
    sent to the validation service, a call of a method of the target, a
    fragment ([Some]) or the end ([None]) obtained from the source iterator
    or the iterator throwing, the iterator closed before its end (by
    [break] or by an exception in the loop body), and a chunk yielded to
    the consumer of the guarded stream. *)
Inductive Event : Type :=
| EvFetch (req : HttpRequest OpenAIParam)
| EvInvoke (m : Model) (input : Input) (options : CallOptions)
| EvStream (m : Model) (input : Input) (options : CallOptions)
| EvNext (item : option AIMessageChunk)
| EvNextThrow
| EvClose
| EvYield (chunk : AIMessageChunk)
| EvBindTools (m : Model) (args : ToolArgs)
| EvWithConfig (m : Model) (cfg : RunnableConfig).

Definition M (A : Type) : Type := nat -> Outcome A * list Event * nat.

Definition ret {A : Type} (a : A) : M A :=
  fun n => (Return a, [], n).

Definition throw {A : Type} (e : Exn) : M A :=
  fun n => (Throw e, [], n).

Definition bind {A B : Type} (m : M A) (k : A -> M B) : M B :=
  fun n =>
    match m n with
    | (Return a, evs, n') =>
        match k a n' with
        | (r, evs', n'') => (r, evs ++ evs', n'')
        end
    | (Throw e, evs, n') => (Throw e, evs, n')
    end.

Definition emit (e : Event) : M unit :=
  fun n => (Return tt, [e], n).

Definition lift {A : Type} (o : Outcome A) : M A :=
  fun n => (o, [], n).

(** [try { m } catch (e) { handler e }] *)
Definition try_catch {A : Type} (m : M A) (handler : Exn -> M A) : M A :=
  fun n =>
    match m n with
    | (Return a, evs, n') => (Return a, evs, n')
    | (Throw e, evs, n') =>
        match handler e n' with
        | (r, evs', n'') => (r, evs ++ evs', n'')
        end
    end.

(** [await fetch(url, init)] *)
Definition do_fetch (req : HttpRequest OpenAIParam) : M HttpResponse :=
  fun n => (fetch n req, [EvFetch req], S n).

Notation "x <- m ;; k" := (bind m (fun x => k))
  (at level 61, m at next level, right associativity).
Notation "m ;;; k" := (bind m (fun _ => k))
  (at level 61, right associativity).

(** ** The validation client *)

(** [baseUrl.replace(re, empty)] where [re] matches a run of slashes at the
    end of the string. *)
Fixpoint strip_trailing_slashes (s : string) : string :=
  match s with
  | EmptyString => EmptyString
  | String c rest =>
      match strip_trailing_slashes rest with
      | EmptyString => if Ascii.eqb c "/" then EmptyString else String c EmptyString
      | r => String c r
      end
  end.

(** A parameter with a default value: the default replaces [undefined]. *)
Definition with_default {A : Type} (o : option A) (d : A) : A :=
  match o with
  | Some a => a
  | None => d
  end.

(** The status code as a template literal prints it. *)
Definition show_status (status : nat) : string :=
  NilZero.string_of_uint (Nat.to_uint status).

Definition validation_failed_message (res : HttpResponse) : string :=
  ("Guardrails validation failed: " ++ show_status (res_status res) ++ " "
     ++ res_statusText res)%string.

Definition validation_request (projectId apiKey : string)
    (messages : list BaseMessage) (response : string)
    (target : ValidationTarget) (baseUrl : option string)
    : HttpRequest OpenAIParam :=
  let trimmedBase := strip_trailing_slashes (with_default baseUrl DEFAULT_BASE_URL) in
  let apiUrl := (trimmedBase ++ "/" ++ projectId ++ "/validate")%string in
  let payload :=
    mkPayload (convertMessagesToOpenAIParams messages) response target in
  mkRequest apiUrl apiKey payload.

Definition validateWithGuardrails (projectId apiKey : string)
    (messages : list BaseMessage) (response : string)
    (target : ValidationTarget) (baseUrl : option string)
    : M GuardrailsResponse :=
  res <- do_fetch
           (validation_request projectId apiKey messages response target baseUrl) ;;
  if negb (res_ok res) then
    throw (JsError (validation_failed_message res) None)
  else
    rawResponse <- lift (res_json res) ;;
    lift (GuardrailsResponseSchema_parse rawResponse).

(** ** The two conditions *)

Record Check : Type := mkCheck {
  shouldBlock : bool;
  overrideResponse : option string
}.

Definition is_blocking (a : Action) : bool :=
  match a with
  | block | modify | rephrase => true
  | passthrough => false
  end.

Definition check_of (response : GuardrailsResponse) : Check :=
  mkCheck (is_blocking (action response)) (revised_response response).

Definition createPromptCondition (projectId apiKey : string)
    (baseUrl : option string) (messages : list BaseMessage) : M Check :=
  response <- validateWithGuardrails projectId apiKey messages EmptyString
                target_prompt (Some (with_default baseUrl DEFAULT_BASE_URL)) ;;
  ret (check_of response).

Definition createResponseCondition (projectId apiKey : string)
    (baseUrl : option string) (response : AIMessage)
    (messages : list BaseMessage) : M Check :=
  guardrailsResponse <-
    validateWithGuardrails projectId apiKey messages (msg_content response)
      target_response (Some (with_default baseUrl DEFAULT_BASE_URL)) ;;
  ret (check_of guardrailsResponse).

(** ** The proxy *)

Record AporiaGuardrailsConfig : Type := mkConfig {
  projectId : string;
  apiKey : string;
  chunkBatchSize : option Z;
  baseUrl : option string
}.

(** The proxy [withGuardrails] returns: its target and the four values its
    handler closes over, the last two with their defaults filled in. *)
Record Guarded : Type := mkGuarded {
  target : Model;
  g_projectId : string;
  g_apiKey : string;
  g_chunkBatchSize : Z;
  g_baseUrl : string
}.

Definition withGuardrails (model : Model) (config : AporiaGuardrailsConfig)
    : Guarded :=
  mkGuarded model (projectId config) (apiKey config)
    (with_default (chunkBatchSize config) DEFAULT_CHUNK_BATCH_SIZE)
    (with_default (baseUrl config) DEFAULT_BASE_URL).

Definition PROMPT_CONDITION (g : Guarded) : list BaseMessage -> M Check :=
  createPromptCondition (g_projectId g) (g_apiKey g) (Some (g_baseUrl g)).

Definition RESPONSE_CONDITION (g : Guarded)
    : AIMessage -> list BaseMessage -> M Check :=
  createResponseCondition (g_projectId g) (g_apiKey g) (Some (g_baseUrl g)).

Definition extractMessages (input : Input) : M (list BaseMessage) :=
  lift (convertInputToChatMessages input).

(** [e && e.code === "content_filter"]: the value thrown has a [code]
    property, and it is that string.  A [ZodError] has none, nor has a
    value that is not an object. *)
Definition is_content_filter (e : Exn) : bool :=
  match e with
  | JsError _ (Some (JString c)) => String.eqb c "content_filter"
  | ThrownValue (JObject fields) =>
      match get_prop "code" fields with
      | Some (JString c) => String.eqb c "content_filter"
      | _ => false
      end
  | _ => false
  end.

(** The function the proxy returns for [invoke]. *)
Definition guarded_invoke (g : Guarded) (input : Input) (options : CallOptions)
    : M AIMessage :=
  promptMsgs <- extractMessages input ;;
  promptCheck <- PROMPT_CONDITION g promptMsgs ;;
  if shouldBlock promptCheck then
    ret (new_AIMessage (or_default (overrideResponse promptCheck) PROMPT_OVERRIDE))
  else
    try_catch
      (result <- (emit (EvInvoke (target g) input options) ;;;
                  lift (orig_invoke (target g) input options)) ;;
       responseCheck <- RESPONSE_CONDITION g result promptMsgs ;;
       if shouldBlock responseCheck then
         ret (new_AIMessage
                (or_default (overrideResponse responseCheck) RESPONSE_OVERRIDE))
       else ret result)
      (fun e =>
         if is_content_filter e then ret (new_AIMessage CONTENT_FILTER_APOLOGY)
         else throw e).

(** The three variables of the streaming loop. *)
Record LoopState : Type := mkLoopState {
  chunkCount : Z;
  lastChunk : option AIMessageChunk;
  accumulatedContent : string
}.

Definition loop_start : LoopState := mkLoopState 0 None EmptyString.

(** One fragment taken in: the first three statements of the loop body
    (the content or-ed with the empty string is the content itself, being a string). *)
Definition take_in (st : LoopState) (chunk : AIMessageChunk) : LoopState :=
  mkLoopState (chunkCount st + 1) (Some chunk)
    (accumulatedContent st ++ chunk_content chunk)%string.

(** A statement of the loop body that throws closes the source iterator
    on its way out. *)
Definition closing {A : Type} (m : M A) : M A :=
  try_catch m (fun e => emit EvClose ;;; throw e).

(** [for await (const chunk of streamIter) { ... }] over the fragments the
    source still has to deliver; the result is the state the loop is left
    in, by exhaustion or by [break]. *)
Fixpoint stream_loop (g : Guarded) (promptMsgs : list BaseMessage)
    (pending : list AIMessageChunk) (failure : option Exn) (st : LoopState)
    : M LoopState :=
  match pending with
  | [] =>
      match failure with
      | None => emit (EvNext None) ;;; ret st
      | Some e => emit EvNextThrow ;;; throw e
      end
  | chunk :: rest =>
      emit (EvNext (Some chunk)) ;;;
      let st' := take_in st chunk in
      if rem_is_zero (chunkCount st') (g_chunkBatchSize g) then
        responseCheck <-
          closing (RESPONSE_CONDITION g
                     (new_AIMessage (accumulatedContent st')) promptMsgs) ;;
        if shouldBlock responseCheck then
          emit (EvYield (new_AIMessageChunk
                           (or_default (overrideResponse responseCheck)
                              RESPONSE_OVERRIDE))) ;;;
          emit EvClose ;;;
          ret st'
        else
          emit (EvYield chunk) ;;;
          stream_loop g promptMsgs rest failure st'
      else
        emit (EvYield chunk) ;;;
        stream_loop g promptMsgs rest failure st'
  end.

(** The check after the loop. *)
Definition tail_check (g : Guarded) (promptMsgs : list BaseMessage)
    (st : LoopState) : M unit :=
  match lastChunk st with
  | Some _ =>
      if negb (rem_is_zero (chunkCount st) (g_chunkBatchSize g)) then
        responseCheck <-
          RESPONSE_CONDITION g (new_AIMessage (accumulatedContent st)) promptMsgs ;;
        if shouldBlock responseCheck then
          emit (EvYield (new_AIMessageChunk
                           (or_default (overrideResponse responseCheck)
                              RESPONSE_OVERRIDE)))
        else ret tt
      else ret tt
  | None => ret tt
  end.

(** The generator the proxy returns for [stream], run by a consumer that
    iterates it to its end. *)
Definition guarded_stream (g : Guarded) (input : Input) (options : CallOptions)
    : M unit :=
  promptMsgs <- extractMessages input ;;
  promptCheck <- PROMPT_CONDITION g promptMsgs ;;
  if shouldBlock promptCheck then
    emit (EvYield (new_AIMessageChunk
                     (or_default (overrideResponse promptCheck) PROMPT_OVERRIDE)))
  else
    streamIter <- (emit (EvStream (target g) input options) ;;;
                   lift (orig_stream (target g) input options)) ;;
    st <- stream_loop g promptMsgs (src_chunks streamIter)
            (src_failure streamIter) loop_start ;;
    tail_check g promptMsgs st.

(** The configuration the intercepted [bindTools] and [withConfig] wrap
    the new instance with. *)
Definition rewrap_config (g : Guarded) : AporiaGuardrailsConfig :=
  mkConfig (g_projectId g) (g_apiKey g) (Some (g_chunkBatchSize g))
    (Some (g_baseUrl g)).

(** The function the proxy returns for [bindTools]; when the target has no
    such method the proxy has none either. *)
Definition guarded_bindTools (g : Guarded) : option (ToolArgs -> M Guarded) :=
  match orig_bindTools (target g) with
  | Some orig =>
      Some (fun args =>
              newModel <- (emit (EvBindTools (target g) args) ;;; lift (orig args)) ;;
              ret (withGuardrails newModel (rewrap_config g)))
  | None => None
  end.

(** The function the proxy returns for [withConfig]. *)
Definition guarded_withConfig (g : Guarded) (cfg : RunnableConfig) : M Guarded :=
  newModel <- (emit (EvWithConfig (target g) cfg) ;;;
               lift (orig_withConfig (target g) cfg)) ;;
  ret (withGuardrails newModel (rewrap_config g)).

(** ** Reading a run *)

Definition run {A : Type} (m : M A) (sent : nat) : Outcome A * list Event * nat :=
  m sent.

Definition result_of {A : Type} (r : Outcome A * list Event * nat) : Outcome A :=
  fst (fst r).

Definition trace_of {A : Type} (r : Outcome A * list Event * nat) : list Event :=
  snd (fst r).

(** The chunks the consumer received, in order. *)
Fixpoint yielded (tr : list Event) : list AIMessageChunk :=
  match tr with
  | [] => []
  | EvYield c :: rest => c :: yielded rest
  | _ :: rest => yielded rest
  end.

(** The fragments taken from the source, in order. *)
Fixpoint consumed (tr : list Event) : list AIMessageChunk :=
  match tr with
  | [] => []
  | EvNext (Some c) :: rest => c :: consumed rest
  | _ :: rest => consumed rest
  end.

(** The requests sent to the validation service, in order. *)
Fixpoint requests (tr : list Event) : list (HttpRequest OpenAIParam) :=
  match tr with
  | [] => []
  | EvFetch req :: rest => req :: requests rest
  | _ :: rest => requests rest
  end.

Definition is_response_request (req : HttpRequest OpenAIParam) : bool :=
  match payload_validation_target (req_body req) with
  | target_response => true
  | target_prompt => false
  end.

(** The texts submitted for a response check, in order. *)
Definition response_checks (tr : list Event) : list string :=
  map (fun req => payload_response (req_body req))
    (filter is_response_request (requests tr)).

(** The calls made to the wrapped model's [invoke] and [stream]. *)
Fixpoint model_calls (tr : list Event) : list Event :=
  match tr with
  | [] => []
  | EvInvoke m i o :: rest => EvInvoke m i o :: model_calls rest
  | EvStream m i o :: rest => EvStream m i o :: model_calls rest
  | _ :: rest => model_calls rest
  end.

(** The part of a trace that follows the exhaustion of the source. *)
Fixpoint after_exhaustion (tr : list Event) : list Event :=
  match tr with
  | [] => []
  | EvNext None :: rest => rest
  | _ :: rest => after_exhaustion rest
  end.

(** The text of a run of fragments, as the loop accumulates it. *)
Definition text_of (chunks : list AIMessageChunk) : string :=
  fold_left (fun acc c => (acc ++ chunk_content c)%string) chunks EmptyString.

(** ** Vocabulary of the properties *)

(** The request of the prompt check and of a response check of a guarded
    model, and what [validateWithGuardrails] makes of the answer to it
    when [sent] requests went out before. *)
Definition prompt_request (g : Guarded) (msgs : list BaseMessage)
    : HttpRequest OpenAIParam :=
  validation_request (g_projectId g) (g_apiKey g) msgs EmptyString target_prompt
    (Some (g_baseUrl g)).

Definition response_request (g : Guarded) (msgs : list BaseMessage)
    (text : string) : HttpRequest OpenAIParam :=
  validation_request (g_projectId g) (g_apiKey g) msgs text target_response
    (Some (g_baseUrl g)).

Definition prompt_verdict (g : Guarded) (msgs : list BaseMessage) (sent : nat)
    : Outcome GuardrailsResponse :=
  result_of (run (validateWithGuardrails (g_projectId g) (g_apiKey g) msgs
                    EmptyString target_prompt (Some (g_baseUrl g))) sent).

Definition response_verdict (g : Guarded) (msgs : list BaseMessage)
    (text : string) (sent : nat) : Outcome GuardrailsResponse :=
  result_of (run (validateWithGuardrails (g_projectId g) (g_apiKey g) msgs text
                    target_response (Some (g_baseUrl g))) sent).

(** A response check that comes back and does not block. *)
Definition passes (g : Guarded) (msgs : list BaseMessage) (text : string)
    (sent : nat) : Prop :=
  exists r, response_verdict g msgs text sent = Return r
            /\ is_blocking (action r) = false.

(** The loop state after the fragments [seen]. *)
Definition state_after (seen : list AIMessageChunk) : LoopState :=
  fold_left take_in seen loop_start.

(** The texts checked at the batch boundaries met while the loop, in state
    [st], takes in the fragments [seg]. *)
Fixpoint boundary_texts (B : Z) (st : LoopState) (seg : list AIMessageChunk)
    : list string :=
  match seg with
  | [] => []
  | chunk :: rest =>
      let st' := take_in st chunk in
      if rem_is_zero (chunkCount st') B
      then accumulatedContent st' :: boundary_texts B st' rest
      else boundary_texts B st' rest
  end.

(** The events of the loop over [seg] when no boundary check blocks. *)
Fixpoint pass_events (g : Guarded) (msgs : list BaseMessage) (st : LoopState)
    (seg : list AIMessageChunk) : list Event :=
  match seg with
  | [] => []
  | chunk :: rest =>
      let st' := take_in st chunk in
      EvNext (Some chunk)
      :: (if rem_is_zero (chunkCount st') (g_chunkBatchSize g)
          then [EvFetch (response_request g msgs (accumulatedContent st'))]
          else [])
      ++ EvYield chunk :: pass_events g msgs st' rest
  end.

Definition prepend {A : Type} (evs : list Event)
    (r : Outcome A * list Event * nat) : Outcome A * list Event * nat :=
  (result_of r, evs ++ trace_of r, snd r).

(** Every response check in the trace submits the text of all the
    fragments taken from the source up to then, [seen] being those taken
    before the trace starts. *)
Fixpoint checks_on_accumulated (seen : list AIMessageChunk) (tr : list Event)
    : Prop :=
  match tr with
  | [] => True
  | EvNext (Some c) :: rest => checks_on_accumulated (seen ++ [c]) rest
  | EvFetch req :: rest =>
      (is_response_request req = true ->
       payload_response (req_body req) = text_of seen)
      /\ checks_on_accumulated seen rest
  | _ :: rest => checks_on_accumulated seen rest
  end.

(** What the handler of the single-turn call makes of a thrown value. *)
Definition caught (e : Exn) : Outcome AIMessage :=
  if is_content_filter e then Return (new_AIMessage CONTENT_FILTER_APOLOGY)
  else Throw e.

(** Whether the check after the loop is due, the chunk it yields, and the
    result it leaves. *)
Definition tail_due (g : Guarded) (st : LoopState) : bool :=
  match lastChunk st with
  | Some _ => negb (rem_is_zero (chunkCount st) (g_chunkBatchSize g))
  | None => false
  end.

Definition override_events (v : Outcome GuardrailsResponse) : list Event :=
  match v with
  | Return r =>
      if is_blocking (action r)
      then [EvYield (new_AIMessageChunk
                       (or_default (revised_response r) RESPONSE_OVERRIDE))]
      else []
  | Throw _ => []
  end.

Definition unit_outcome {A : Type} (v : Outcome A) : Outcome unit :=
  match v with
  | Return _ => Return tt
  | Throw e => Throw e
  end.

(** The content that stands in for a blocked prompt or response: the
    revision of the service when it is a non-empty string, the fallback
    when it is empty or missing. *)
Definition falls_back (revised : option string) (fallback content : string)
    : Prop :=
  match revised with
  | Some EmptyString => content = fallback
  | Some s => content = s
  | None => content = fallback
  end.

(** Whether the trace sees the source end. *)
Fixpoint exhausted (tr : list Event) : bool :=
  match tr with
  | [] => false
  | EvNext None :: _ => true
  | _ :: rest => exhausted rest
  end.

End Adapter.

Notation "x <- m ;; k" := (bind m (fun x => k))
  (at level 61, m at next level, right associativity).

(** ** A scripted world

    Concrete collaborators to run the operations on: one user message per
    input string, a service that answers its [n]-th request with
    [replies n], a model numbered by a [nat] whose [invoke] and [stream]
    give fixed results and whose derivatives are numbered one higher. *)
Definition scripted (replies : nat -> Outcome HttpResponse)
    (answer : Outcome AIMessage) (source : Outcome Source) : Collaborators :=
  {| Input := string;
     CallOptions := unit;
     BaseMessage := string;
     OpenAIParam := string;
     ToolArgs := unit;
     RunnableConfig := unit;
     Model := nat;
     convertMessagesToOpenAIParams := fun msgs => msgs;
     convertInputToChatMessages := fun input => Return [input];
     orig_invoke := fun _ _ _ => answer;
     orig_stream := fun _ _ _ => source;
     orig_bindTools := fun m => Some (fun _ => Return (S m));
     orig_withConfig := fun m _ => Return (S m);
     fetch := fun n _ => replies n |}.

Definition reply_body (act : string) (revised : json) : json :=
  JObject [("action", JString act); ("revised_response", revised)].

Definition reply_ok (body : json) : Outcome HttpResponse :=
  Return (mkResponse 200 "OK" (Return body)).

(** The [n]-th reply of a list of replies, a passthrough after its end. *)
Definition script (replies : list (Outcome HttpResponse)) (n : nat)
    : Outcome HttpResponse :=
  nth n replies (reply_ok (reply_body "passthrough" JNull)).

Definition demo_config : AporiaGuardrailsConfig :=
  mkConfig "proj" "key" (Some 2%Z) None.

Definition frag (s : string) : AIMessageChunk :=
  mkAIMessageChunk s [("id", JString "run-1")].

Definition pass_reply : Outcome HttpResponse :=
  reply_ok (reply_body "passthrough" JNull).

Definition five : list AIMessageChunk :=
  [frag "a"; frag "b"; frag "c"; frag "d"; frag "e"].

Definition hello : AIMessage :=
  mkAIMessage "Hello!" [("id", JString "msg-1")].

(** The guarded model of the runs: model [m] of world [w], wrapped with a
    batch size of two and the default base URL. *)
Definition demo_guard (w : Collaborators) (m : @Model w) : @Guarded w :=
  @withGuardrails w m demo_config.

(** The prompt check blocks, with an empty revision. *)
Definition world_prompt_blocked : Collaborators :=
  scripted (script [reply_ok (reply_body "block" (JString EmptyString))])
    (Return hello) (Return (mkSource five None)).

(** Every check passes; the stream has five fragments. *)
Definition world_all_pass : Collaborators :=
  scripted (script []) (Return hello) (Return (mkSource five None)).

(** The check after the fourth fragment blocks. *)
Definition world_blocked_at_four : Collaborators :=
  scripted (script [pass_reply; pass_reply;
                    reply_ok (reply_body "block" (JString "no"))])
    (Return hello) (Return (mkSource five None)).

(** The check after the end of the source blocks, with an empty revision. *)
Definition world_blocked_at_end : Collaborators :=
  scripted (script [pass_reply; pass_reply; pass_reply;
                    reply_ok (reply_body "modify" (JString EmptyString))])
    (Return hello) (Return (mkSource five None)).

(** The response check of a single-turn call blocks, with an empty
    revision. *)
Definition world_response_blocked : Collaborators :=
  scripted (script [pass_reply;
                    reply_ok (reply_body "rephrase" (JString EmptyString))])
    (Return hello) (Return (mkSource five None)).

(** The wrapped model rejects the call, once as a content filter would and
    once for another reason. *)
Definition world_content_filter : Collaborators :=
  scripted (script [])
    (Throw (JsError "filtered" (Some (JString "content_filter"))))
    (Return (mkSource five None)).

Definition world_rate_limited : Collaborators :=
  scripted (script [])
    (Throw (JsError "too many requests" (Some (JString "rate_limit"))))
    (Return (mkSource five None)).

(** The service is down. *)
Definition world_unavailable : Collaborators :=
  scripted (script [Return (mkResponse 503 "Service Unavailable" (Return JNull))])
    (Return hello) (Return (mkSource five None)).

(** The service answers with extra fields, and without [revised_response]. *)
Definition verbose_body : json :=
  JObject [("action", JString "block"); ("revised_response", JString "no");
           ("policy", JString "pii"); ("score", JNumber 7)].

Definition bare_body : json :=
  JObject [("action", JString "passthrough")].

Definition world_verbose : Collaborators :=
  scripted (script [reply_ok verbose_body]) (Return hello)
    (Return (mkSource five None)).

Definition world_bare : Collaborators :=
  scripted (script [reply_ok bare_body]) (Return hello)
    (Return (mkSource five None)).

(** ** Vocabulary of further properties *)

(** A run of [k] slashes, and whether a string ends with a slash. *)
Fixpoint slashes (k : nat) : string :=
  match k with
  | O => EmptyString
  | S k' => String "/" (slashes k')
  end.

Fixpoint ends_with_slash (s : string) : bool :=
  match s with
  | EmptyString => false
  | String c EmptyString => Ascii.eqb c "/"
  | String _ rest => ends_with_slash rest
  end.

Section Usage.

Context {W : Collaborators}.

(** The same proxy with another batch size. *)
Definition with_batch_size (g : Guarded) (B : Z) : Guarded :=
  mkGuarded (target g) (g_projectId g) (g_apiKey g) B (g_baseUrl g).

(** [withConfig] called on a model, then on what it returns, and so on
    through [cfgs]: on the wrapped model itself, and on a guarded model. *)
Fixpoint orig_reconfigure (m : Model) (cfgs : list RunnableConfig)
    : Outcome Model :=
  match cfgs with
  | [] => Return m
  | cfg :: rest =>
      match orig_withConfig m cfg with
      | Return m' => orig_reconfigure m' rest
      | Throw e => Throw e
      end
  end.

Fixpoint reconfigure (g : Guarded) (cfgs : list RunnableConfig) : M Guarded :=
  match cfgs with
  | [] => ret g
  | cfg :: rest => g' <- guarded_withConfig g cfg ;; reconfigure g' rest
  end.

(** A request that goes to the endpoint of the guarded model, with its
    key, and carries the messages [msgs]. *)
Definition bound_for (g : Guarded) (msgs : list BaseMessage)
    (req : HttpRequest OpenAIParam) : Prop :=
  req_url req
    = (strip_trailing_slashes (g_baseUrl g) ++ "/" ++ g_projectId g
         ++ "/validate")%string
  /\ req_api_key req = g_apiKey g
  /\ payload_messages (req_body req) = convertMessagesToOpenAIParams msgs.

(** The [content] a consumer assembles from a stream, appending the
    content of each chunk it receives, as [testStreaming] of the example
    script does. *)
Definition streamed_content (tr : list Event) : string :=
  fold_left (fun content chunk => (content ++ chunk_content chunk)%string)
    (yielded tr) EmptyString.

End Usage.

(** The service fails on the response check. *)
Definition unavailable : Outcome HttpResponse :=
  Return (mkResponse 503 "Service Unavailable" (Return JNull)).

Definition world_response_unavailable : Collaborators :=
  scripted (script [pass_reply; unavailable]) (Return hello)
    (Return (mkSource five None)).

(** The request of the response check is rejected by the network layer
    with an error that bears the content-filter code. *)
Definition world_response_filtered : Collaborators :=
  scripted
    (script [pass_reply;
             Throw (JsError "blocked upstream" (Some (JString "content_filter")))])
    (Return hello) (Return (mkSource five None)).

(** The check after the fourth fragment fails. *)
Definition world_check_fails_at_four : Collaborators :=
  scripted (script [pass_reply; pass_reply; unavailable]) (Return hello)
    (Return (mkSource five None)).

(** The source breaks after five fragments; the stream cannot be opened. *)
Definition world_source_breaks : Collaborators :=
  scripted (script []) (Return hello)
    (Return (mkSource five
               (Some (JsError "connection reset" (Some (JString "content_filter")))))).

Definition world_stream_refused : Collaborators :=
  scripted (script []) (Return hello)
    (Throw (JsError "filtered" (Some (JString "content_filter")))).

(** The input cannot be converted to messages. *)
Definition world_bad_input : Collaborators :=
  {| Input := string;
     CallOptions := unit;
     BaseMessage := string;
     OpenAIParam := string;
     ToolArgs := unit;
     RunnableConfig := unit;
     Model := nat;
     convertMessagesToOpenAIParams := fun msgs => msgs;
     convertInputToChatMessages :=
       fun _ => Throw (JsError "unsupported input" None);
     orig_invoke := fun _ _ _ => Return hello;
     orig_stream := fun _ _ _ => Return (mkSource five None);
     orig_bindTools := fun _ => None;
     orig_withConfig := fun m _ => Return (S m);
     fetch := fun _ _ => pass_reply |}.

Definition zero_batch_config : AporiaGuardrailsConfig :=
  mkConfig "proj" "key" (Some 0%Z) (Some "https://eu.example.com//").

(** ** Properties *)

Section Properties.

Context {W : Collaborators}.

Lemma run_bind {A B : Type} (m : M A) (k : A -> M B) (n : nat) :
  run (bind m k) n =
  match run m n with
  | (Return a, evs, n') =>
      match run (k a) n' with
      | (r, evs', n'') => (r, evs ++ evs', n'')
      end
  | (Throw e, evs, n') => (Throw e, evs, n')
  end.
Proof. reflexivity. Qed.

Lemma run_ret {A : Type} (a : A) (n : nat) : run (ret a) n = (Return a, [], n).
Proof. reflexivity. Qed.

Lemma run_throw {A : Type} (e : Exn) (n : nat) :
  run (throw e) n = (@Throw A e, [], n).
Proof. reflexivity. Qed.

Lemma run_lift {A : Type} (o : Outcome A) (n : nat) : run (lift o) n = (o, [], n).
Proof. reflexivity. Qed.

Lemma run_emit (e : Event) (n : nat) : run (emit e) n = (Return tt, [e], n).
Proof. reflexivity. Qed.

Lemma run_try_catch {A : Type} (m : M A) (handler : Exn -> M A) (n : nat) :
  run (try_catch m handler) n =
  match run m n with
  | (Return a, evs, n') => (Return a, evs, n')
  | (Throw e, evs, n') =>
      match run (handler e) n' with
      | (r, evs', n'') => (r, evs ++ evs', n'')
      end
  end.
Proof. reflexivity. Qed.

Ltac run_step :=
  repeat (first [ rewrite run_try_catch | rewrite run_bind | rewrite run_lift
                | rewrite run_emit | rewrite run_ret | rewrite run_throw ];
          cbn beta iota).

(** A validation sends one request, whatever the reply. *)
Lemma run_validate (pid key : string) (msgs : list BaseMessage) (text : string)
    (tgt : ValidationTarget) (base : option string) (n : nat) :
  run (validateWithGuardrails pid key msgs text tgt base) n =
  (result_of (run (validateWithGuardrails pid key msgs text tgt base) n),
   [EvFetch (validation_request pid key msgs text tgt base)], S n).
Proof.
  unfold validateWithGuardrails, run, result_of, bind, do_fetch, throw, lift.
  destruct (fetch n _) as [res|e]; cbn; [|reflexivity].
  destruct (res_ok res); cbn; [|reflexivity].
  destruct (res_json res); cbn; [|reflexivity].
  destruct (GuardrailsResponseSchema_parse a); reflexivity.
Qed.

Lemma run_PROMPT_CONDITION (g : Guarded) (msgs : list BaseMessage) (n : nat) :
  run (PROMPT_CONDITION g msgs) n =
  (match prompt_verdict g msgs n with
   | Return r => Return (check_of r)
   | Throw e => Throw e
   end, [EvFetch (prompt_request g msgs)], S n).
Proof.
  unfold PROMPT_CONDITION, createPromptCondition, prompt_verdict, prompt_request.
  cbn [with_default]. rewrite run_bind, run_validate.
  destruct (result_of _); reflexivity.
Qed.

Lemma run_RESPONSE_CONDITION (g : Guarded) (msgs : list BaseMessage)
    (response : AIMessage) (n : nat) :
  run (RESPONSE_CONDITION g response msgs) n =
  (match response_verdict g msgs (msg_content response) n with
   | Return r => Return (check_of r)
   | Throw e => Throw e
   end, [EvFetch (response_request g msgs (msg_content response))], S n).
Proof.
  unfold RESPONSE_CONDITION, createResponseCondition, response_verdict,
    response_request.
  cbn [with_default]. rewrite run_bind, run_validate.
  destruct (result_of _); reflexivity.
Qed.

(** *** The validation client *)

(** C7: a reply with a non-success status makes [validateWithGuardrails]
    throw an error whose message carries the status code and the status
    text; one request was sent and no other follows (no retry), and the
    outcome is a throw, never a returned response such as a block
    decision. *)
Theorem validate_non_success_throws (pid key : string)
    (msgs : list BaseMessage) (text : string) (tgt : ValidationTarget)
    (base : option string) (n : nat) (res : HttpResponse) :
  fetch n (validation_request pid key msgs text tgt base) = Return res ->
  res_ok res = false ->
  run (validateWithGuardrails pid key msgs text tgt base) n =
    (Throw (JsError ("Guardrails validation failed: "
                       ++ show_status (res_status res) ++ " "
                       ++ res_statusText res)%string None),
     [EvFetch (validation_request pid key msgs text tgt base)], S n)
  /\ forall r : GuardrailsResponse,
       result_of (run (validateWithGuardrails pid key msgs text tgt base) n)
       <> Return r.
Proof.
  intros Hfetch Hok.
  assert (Hrun : run (validateWithGuardrails pid key msgs text tgt base) n =
            (Throw (JsError (validation_failed_message res) None),
             [EvFetch (validation_request pid key msgs text tgt base)], S n)).
  { unfold validateWithGuardrails, run, bind, do_fetch.
    rewrite Hfetch, Hok. reflexivity. }
  split.
  - exact Hrun.
  - intros r. rewrite Hrun. discriminate.
Qed.

Lemma parse_action_recognized (v : option json) :
  (exists a, parse_action v = inr a) <-> recognized_action v.
Proof.
  unfold recognized_action. split.
  - intros [a Ha]. destruct v as [[| | |s| |]|]; try discriminate.
    cbn in Ha.
    destruct (String.eqb_spec s "modify"); [exists modify; subst; reflexivity|].
    destruct (String.eqb_spec s "passthrough");
      [exists passthrough; subst; reflexivity|].
    destruct (String.eqb_spec s "block"); [exists block; subst; reflexivity|].
    destruct (String.eqb_spec s "rephrase");
      [exists rephrase; subst; reflexivity|].
    discriminate.
  - intros [a ->]. exists a. destruct a; reflexivity.
Qed.

Lemma parse_revised_string_or_null (v : option json) :
  (exists r, parse_revised_response v = inr r) <-> string_or_null v.
Proof.
  unfold string_or_null. split.
  - intros [r Hr]. destruct v as [[| | |s| |]|]; try discriminate.
    + left; reflexivity.
    + right; exists s; reflexivity.
  - intros [->|[s ->]]; eexists; reflexivity.
Qed.

(** What the schema decides on a reply body. *)
Lemma schema_parse_spec (raw : json) :
  (exists r, GuardrailsResponseSchema_parse raw = Return r)
  \/ (exists issues, GuardrailsResponseSchema_parse raw = Throw (ZodError issues)).
Proof.
  unfold GuardrailsResponseSchema_parse.
  destruct raw; try (right; eexists; reflexivity).
  destruct (parse_action _), (parse_revised_response _);
    try (right; eexists; reflexivity).
  left; eexists; reflexivity.
Qed.

Lemma schema_parse_accepts (raw : json) :
  (exists r, GuardrailsResponseSchema_parse raw = Return r) <->
  recognized_action (field "action" raw)
  /\ string_or_null (field "revised_response" raw).
Proof.
  rewrite <- parse_action_recognized, <- parse_revised_string_or_null.
  unfold GuardrailsResponseSchema_parse, field.
  destruct raw;
    try (split; [intros [r Hr]; discriminate | intros [[a Ha] _]; discriminate]).
  destruct (parse_action _) as [ia|a], (parse_revised_response _) as [ir|r];
    split; intros H.
  all: try (destruct H as [r' Hr']; discriminate).
  all: try (destruct H as [[a' Ha'] [r' Hr']]; discriminate).
  - split; eexists; reflexivity.
  - eexists; reflexivity.
Qed.

Lemma run_validate_success (pid key : string) (msgs : list BaseMessage)
    (text : string) (tgt : ValidationTarget) (base : option string) (n : nat)
    (res : HttpResponse) (raw : json) :
  fetch n (validation_request pid key msgs text tgt base) = Return res ->
  res_ok res = true ->
  res_json res = Return raw ->
  result_of (run (validateWithGuardrails pid key msgs text tgt base) n) =
  GuardrailsResponseSchema_parse raw.
Proof.
  intros Hfetch Hok Hjson.
  unfold validateWithGuardrails, run, result_of, bind, do_fetch, lift.
  rewrite Hfetch, Hok. cbn. rewrite Hjson. cbn.
  destruct (GuardrailsResponseSchema_parse raw); reflexivity.
Qed.

Lemma get_prop_app (key : string) (fields extra : list (string * json)) (v : json) :
  get_prop key fields = Some v -> get_prop key (fields ++ extra) = Some v.
Proof.
  induction fields as [|[k w] fields IH]; cbn; [discriminate|].
  destruct (String.eqb k key); auto.
Qed.

(** C5, as the code has it: on a success status the body is parsed, and
    the parse fails with a schema error exactly when the [action] property
    is not one of the four recognized strings or the [revised_response]
    property is not a string or [null] (a reply without that property is
    rejected); otherwise the checked values are returned, and bindings
    added to an accepted reply change neither the verdict nor the values. *)
Theorem validate_schema_error_iff (pid key : string) (msgs : list BaseMessage)
    (text : string) (tgt : ValidationTarget) (base : option string) (n : nat)
    (res : HttpResponse) (raw : json) :
  fetch n (validation_request pid key msgs text tgt base) = Return res ->
  res_ok res = true ->
  res_json res = Return raw ->
  let outcome :=
    result_of (run (validateWithGuardrails pid key msgs text tgt base) n) in
  ((exists issues, outcome = Throw (ZodError issues)) <->
   ~ (recognized_action (field "action" raw)
      /\ string_or_null (field "revised_response" raw)))
  /\ ((exists r, outcome = Return r) <->
      recognized_action (field "action" raw)
      /\ string_or_null (field "revised_response" raw))
  /\ (forall fields r extra,
        raw = JObject fields ->
        outcome = Return r ->
        exists r',
          GuardrailsResponseSchema_parse (JObject (fields ++ extra)) = Return r'
          /\ action r' = action r
          /\ revised_response r' = revised_response r).
Proof.
  intros Hfetch Hok Hjson outcome.
  assert (Hout : outcome = GuardrailsResponseSchema_parse raw)
    by (apply run_validate_success with (res := res); assumption).
  rewrite Hout. clear Hout outcome.
  split; [|split].
  - rewrite <- schema_parse_accepts.
    destruct (schema_parse_spec raw) as [[r Hr]|[issues Hi]].
    + rewrite Hr. split.
      * intros [issues Hi]. discriminate.
      * intros Hno. exfalso. apply Hno. exists r. reflexivity.
    + rewrite Hi. split.
      * intros _ [r Hr]. discriminate.
      * intros _. exists issues. reflexivity.
  - apply schema_parse_accepts.
  - intros fields r extra -> Hr.
    unfold GuardrailsResponseSchema_parse in *.
    destruct (get_prop "action" fields) as [va|] eqn:Ea;
      [|destruct (parse_revised_response (get_prop "revised_response" fields));
        cbn in Hr; discriminate].
    destruct (get_prop "revised_response" fields) as [vr|] eqn:Er;
      [|destruct (parse_action (Some va)); cbn in Hr; discriminate].
    rewrite (@get_prop_app _ _ extra _ Ea), (@get_prop_app _ _ extra _ Er).
    destruct (parse_action (Some va)), (parse_revised_response (Some vr));
      cbn in Hr; try discriminate.
    injection Hr as <-. eexists. split; [reflexivity|]. split; reflexivity.
Qed.

(** *** The single-turn call *)

Lemma invoke_prompt_block (g : Guarded) (input : Input) (options : CallOptions)
    (n : nat) (msgs : list BaseMessage) (r : GuardrailsResponse) :
  convertInputToChatMessages input = Return msgs ->
  prompt_verdict g msgs n = Return r ->
  is_blocking (action r) = true ->
  run (guarded_invoke g input options) n =
  (Return (new_AIMessage (or_default (revised_response r) PROMPT_OVERRIDE)),
   [EvFetch (prompt_request g msgs)], S n).
Proof.
  intros Hmsgs Hverdict Hblock.
  unfold guarded_invoke, extractMessages.
  run_step. rewrite Hmsgs. cbn beta iota.
  run_step. rewrite run_PROMPT_CONDITION, Hverdict.
  cbn [check_of shouldBlock overrideResponse]. cbn beta iota.
  rewrite Hblock. reflexivity.
Qed.

(** The whole of a single-turn call whose prompt check does not block. *)
Lemma invoke_prompt_pass (g : Guarded) (input : Input) (options : CallOptions)
    (n : nat) (msgs : list BaseMessage) (r : GuardrailsResponse) :
  convertInputToChatMessages input = Return msgs ->
  prompt_verdict g msgs n = Return r ->
  is_blocking (action r) = false ->
  run (guarded_invoke g input options) n =
  match orig_invoke (target g) input options with
  | Return result =>
      (match response_verdict g msgs (msg_content result) (S n) with
       | Return r2 =>
           Return (if is_blocking (action r2)
                   then new_AIMessage
                          (or_default (revised_response r2) RESPONSE_OVERRIDE)
                   else result)
       | Throw e => caught e
       end,
       [EvFetch (prompt_request g msgs); EvInvoke (target g) input options;
        EvFetch (response_request g msgs (msg_content result))],
       S (S n))
  | Throw e =>
      (caught e,
       [EvFetch (prompt_request g msgs); EvInvoke (target g) input options],
       S n)
  end.
Proof.
  intros Hmsgs Hverdict Hpass.
  unfold guarded_invoke, extractMessages.
  run_step. rewrite Hmsgs. cbn beta iota.
  run_step. rewrite run_PROMPT_CONDITION, Hverdict.
  cbn [check_of shouldBlock overrideResponse]. cbn beta iota.
  rewrite Hpass. run_step.
  destruct (orig_invoke (target g) input options) as [result|e]; cbn beta iota.
  - run_step. rewrite run_RESPONSE_CONDITION.
    destruct (response_verdict g msgs (msg_content result) (S n)) as [r2|e];
      cbn [check_of shouldBlock overrideResponse]; cbn beta iota.
    + destruct (is_blocking (action r2)); run_step; reflexivity.
    + unfold caught. destruct (is_content_filter e); run_step; reflexivity.
  - unfold caught. destruct (is_content_filter e); run_step; reflexivity.
Qed.

(** C4: when the prompt check answers passthrough, the wrapped [invoke] is
    called exactly once, on the target, with the caller's input and
    options; and when it returns a message and the response check on that
    message answers passthrough too, the guarded call returns that very
    message. *)
Theorem invoke_passthrough (g : Guarded) (input : Input) (options : CallOptions)
    (n : nat) (msgs : list BaseMessage) (r : GuardrailsResponse) :
  convertInputToChatMessages input = Return msgs ->
  prompt_verdict g msgs n = Return r ->
  action r = passthrough ->
  model_calls (trace_of (run (guarded_invoke g input options) n)) =
    [EvInvoke (target g) input options]
  /\ forall (X : AIMessage) (r2 : GuardrailsResponse),
       orig_invoke (target g) input options = Return X ->
       response_verdict g msgs (msg_content X) (S n) = Return r2 ->
       action r2 = passthrough ->
       result_of (run (guarded_invoke g input options) n) = Return X.
Proof.
  intros Hmsgs Hverdict Haction.
  assert (Hpass : is_blocking (action r) = false) by (rewrite Haction; reflexivity).
  rewrite (invoke_prompt_pass g input options n Hmsgs Hverdict Hpass).
  split.
  - destruct (orig_invoke (target g) input options); reflexivity.
  - intros X r2 HX Hr2 Ha2. rewrite HX, Hr2, Ha2. reflexivity.
Qed.

(** C6: when the prompt check passes and the wrapped [invoke] throws, an
    error whose [code] is [content_filter] is replaced by the fixed apology
    message, returned as the result, and any other thrown value is thrown
    on to the caller as it is. *)
Theorem invoke_model_error (g : Guarded) (input : Input) (options : CallOptions)
    (n : nat) (msgs : list BaseMessage) (r : GuardrailsResponse) (e : Exn) :
  convertInputToChatMessages input = Return msgs ->
  prompt_verdict g msgs n = Return r ->
  is_blocking (action r) = false ->
  orig_invoke (target g) input options = Throw e ->
  (is_content_filter e = true ->
   result_of (run (guarded_invoke g input options) n) =
   Return (new_AIMessage "I'm sorry, but I can't assist with that request."))
  /\ (is_content_filter e = false ->
      result_of (run (guarded_invoke g input options) n) = Throw e).
Proof.
  intros Hmsgs Hverdict Hpass Hthrow.
  rewrite (invoke_prompt_pass g input options n Hmsgs Hverdict Hpass), Hthrow.
  unfold caught, result_of. cbn [fst].
  split; intros ->; reflexivity.
Qed.

(** *** Derived models *)

Lemma rewrap_same_config (m m' : Model) (c : AporiaGuardrailsConfig) :
  withGuardrails m' (rewrap_config (withGuardrails m c)) = withGuardrails m' c.
Proof. reflexivity. Qed.

(** C8: on a guarded model, [bindTools] (when the target has it) and
    [withConfig] call the target's own operation once, with the caller's
    arguments, and return the instance it gives wrapped by [withGuardrails]
    with the project identifier, API key, batch size and base URL of the
    wrapping model, defaults included: the handle obtained is the one
    wrapping the new instance with the original configuration would
    give. *)
Theorem derived_models_rewrapped (m : Model) (c : AporiaGuardrailsConfig) :
  (forall orig args m' n,
     orig_bindTools m = Some orig ->
     orig args = Return m' ->
     exists f,
       guarded_bindTools (withGuardrails m c) = Some f
       /\ run (f args) n =
            (Return (withGuardrails m' c), [EvBindTools m args], n))
  /\ (forall cfg m' n,
        orig_withConfig m cfg = Return m' ->
        run (guarded_withConfig (withGuardrails m c) cfg) n =
          (Return (withGuardrails m' c), [EvWithConfig m cfg], n))
  /\ (forall m',
        let g := withGuardrails m c in
        let g' := withGuardrails m' (rewrap_config g) in
        target g' = m'
        /\ g_projectId g' = projectId c
        /\ g_apiKey g' = apiKey c
        /\ g_chunkBatchSize g' = g_chunkBatchSize g
        /\ g_chunkBatchSize g = with_default (chunkBatchSize c) 200%Z
        /\ g_baseUrl g' = g_baseUrl g
        /\ g_baseUrl g = with_default (baseUrl c) "https://gr-prd.aporia.com").
Proof.
  split; [|split].
  - intros orig args m' n Horig Hm'.
    unfold guarded_bindTools. cbn [target withGuardrails].
    rewrite Horig. eexists. split; [reflexivity|].
    cbn beta. run_step. rewrite Hm'. run_step. reflexivity.
  - intros cfg m' n Hm'.
    unfold guarded_withConfig. cbn [target withGuardrails].
    run_step. rewrite Hm'. run_step. reflexivity.
  - intros m'. cbn. repeat split; reflexivity.
Qed.

(** *** The streaming call: reading traces *)


Lemma yielded_app (l1 l2 : list Event) : yielded (l1 ++ l2) = yielded l1 ++ yielded l2.
Proof.
  induction l1 as [|e l1 IH]; [reflexivity|].
  destruct e; cbn; rewrite IH; reflexivity.
Qed.

Lemma consumed_app (l1 l2 : list Event) :
  consumed (l1 ++ l2) = consumed l1 ++ consumed l2.
Proof.
  induction l1 as [|e l1 IH]; [reflexivity|].
  destruct e as [| | |[c|]| | | | |]; cbn; rewrite IH; reflexivity.
Qed.

Lemma requests_app (l1 l2 : list Event) :
  requests (l1 ++ l2) = requests l1 ++ requests l2.
Proof.
  induction l1 as [|e l1 IH]; [reflexivity|].
  destruct e; cbn; rewrite IH; reflexivity.
Qed.

Lemma response_checks_app (l1 l2 : list Event) :
  response_checks (l1 ++ l2) = response_checks l1 ++ response_checks l2.
Proof.
  unfold response_checks. rewrite requests_app, filter_app, map_app. reflexivity.
Qed.

Lemma model_calls_app (l1 l2 : list Event) :
  model_calls (l1 ++ l2) = model_calls l1 ++ model_calls l2.
Proof.
  induction l1 as [|e l1 IH]; [reflexivity|].
  destruct e; cbn; rewrite IH; reflexivity.
Qed.

Lemma text_of_snoc (seen : list AIMessageChunk) (c : AIMessageChunk) :
  text_of (seen ++ [c]) = (text_of seen ++ chunk_content c)%string.
Proof. unfold text_of. rewrite fold_left_app. reflexivity. Qed.

Lemma state_after_snoc (seen : list AIMessageChunk) (c : AIMessageChunk) :
  state_after (seen ++ [c]) = take_in (state_after seen) c.
Proof. unfold state_after. rewrite fold_left_app. reflexivity. Qed.

Lemma state_after_app (seen seg : list AIMessageChunk) :
  fold_left take_in seg (state_after seen) = state_after (seen ++ seg).
Proof. unfold state_after. rewrite fold_left_app. reflexivity. Qed.

Lemma state_after_spec (seen : list AIMessageChunk) :
  chunkCount (state_after seen) = Z.of_nat (length seen)
  /\ accumulatedContent (state_after seen) = text_of seen
  /\ (lastChunk (state_after seen) = None <-> seen = []).
Proof.
  induction seen as [|c seen IH] using rev_ind.
  - cbn. repeat split; reflexivity.
  - rewrite state_after_snoc, text_of_snoc, length_app.
    destruct IH as [Hc [Ht _]]. cbn [take_in chunkCount accumulatedContent lastChunk length].
    rewrite Hc, Ht. repeat split; try lia; try discriminate.
    intros H. destruct seen; discriminate.
Qed.

Lemma rem_is_zero_nat (c b : nat) :
  (0 < b)%nat -> rem_is_zero (Z.of_nat c) (Z.of_nat b) = (c mod b =? 0)%nat.
Proof.
  intros Hb. unfold rem_is_zero, js_rem.
  destruct (Z.eqb_spec (Z.of_nat b) 0) as [E|_]; [lia|].
  rewrite Z.rem_mod_nonneg by lia. rewrite <- Nat2Z.inj_mod.
  destruct (Z.eqb_spec (Z.of_nat (c mod b)) 0), (Nat.eqb_spec (c mod b) 0);
    try reflexivity; lia.
Qed.

Lemma rem_is_zero_divide (c B : Z) :
  (0 < c)%Z -> rem_is_zero c B = true <-> (B | c)%Z.
Proof.
  intros Hc. unfold rem_is_zero, js_rem.
  destruct (Z.eqb_spec B 0) as [->|HB].
  - split; [discriminate|]. intros [q Hq]. lia.
  - rewrite Z.eqb_eq. apply Z.rem_divide. exact HB.
Qed.

Lemma succ_div_boundary (c b : nat) :
  (0 < b)%nat -> (S c mod b = 0)%nat ->
  (S c / b = c / b + 1)%nat /\ ((c / b + 1) * b = S c)%nat.
Proof.
  intros Hb Hm.
  pose proof (Nat.div_mod_eq (S c) b) as H1.
  pose proof (Nat.div_mod_eq c b) as H2.
  pose proof (Nat.mod_upper_bound c b ltac:(lia)) as H3.
  rewrite Hm in H1.
  assert (S c / b = c / b + 1)%nat by nia.
  split; [assumption|nia].
Qed.

Lemma succ_div_inside (c b : nat) :
  (0 < b)%nat -> (S c mod b <> 0)%nat -> (S c / b = c / b)%nat.
Proof.
  intros Hb Hm.
  pose proof (Nat.div_mod_eq (S c) b) as H1.
  pose proof (Nat.div_mod_eq c b) as H2.
  pose proof (Nat.mod_upper_bound c b ltac:(lia)) as H3.
  pose proof (Nat.mod_upper_bound (S c) b ltac:(lia)) as H4.
  nia.
Qed.

Lemma boundary_texts_closed (b : nat) (seg : list AIMessageChunk) :
  (0 < b)%nat ->
  forall pre : list AIMessageChunk,
    boundary_texts (Z.of_nat b) (state_after pre) seg =
    map (fun j => text_of (firstn (j * b) (pre ++ seg)))
      (seq (length pre / b + 1)
         ((length pre + length seg) / b - length pre / b)).
Proof.
  intros Hb. induction seg as [|chunk seg IH]; intros pre.
  - cbn [boundary_texts length]. rewrite Nat.add_0_r, Nat.sub_diag. reflexivity.
  - cbn [boundary_texts]. rewrite <- state_after_snoc.
    destruct (state_after_spec (pre ++ [chunk])) as [Hc [Ht _]].
    rewrite Hc, Ht, rem_is_zero_nat by exact Hb.
    rewrite IH. rewrite <- app_assoc. cbn [app].
    rewrite length_app. cbn [length].
    replace (length pre + 1)%nat with (S (length pre)) by lia.
    replace (length pre + S (length seg))%nat with (S (length pre) + length seg)%nat by lia.
    assert (Hmono : (S (length pre) / b <= (S (length pre) + length seg) / b)%nat)
      by (apply Nat.Div0.div_le_mono; lia).
    destruct (Nat.eqb_spec (S (length pre) mod b) 0) as [Hm|Hm].
    + destruct (succ_div_boundary (length pre) Hb Hm) as [Hq Hmul].
      rewrite Hq in *.
      replace ((S (length pre) + length seg) / b - length pre / b)%nat
        with (S ((S (length pre) + length seg) / b - (length pre / b + 1)))%nat by lia.
      cbn [seq map]. f_equal.
      * rewrite Hmul.
        replace (S (length pre)) with (length (pre ++ [chunk]))
          by (rewrite length_app; cbn; lia).
        change (pre ++ chunk :: seg) with (pre ++ [chunk] ++ seg).
        rewrite app_assoc, firstn_app, Nat.sub_diag, firstn_all. cbn [firstn].
        rewrite app_nil_r. reflexivity.
      * f_equal. f_equal; lia.
    + rewrite (succ_div_inside (length pre) Hb Hm). reflexivity.
Qed.

(** *** The streaming call: the loop *)


Lemma prepend_nil {A : Type} (r : Outcome A * list Event * nat) : prepend [] r = r.
Proof. destruct r as [[o evs] n]. reflexivity. Qed.

Lemma prepend_app {A : Type} (e1 e2 : list Event) (r : Outcome A * list Event * nat) :
  prepend e1 (prepend e2 r) = prepend (e1 ++ e2) r.
Proof. destruct r as [[o evs] n]. unfold prepend, result_of, trace_of. cbn. rewrite app_assoc. reflexivity. Qed.

Lemma loop_segment (g : Guarded) (msgs : list BaseMessage)
    (seg : list AIMessageChunk) :
  forall (st : LoopState) (m : nat) (rest : list AIMessageChunk)
         (failure : option Exn),
    (forall i text,
        nth_error (boundary_texts (g_chunkBatchSize g) st seg) i = Some text ->
        passes g msgs text (m + i)) ->
    run (stream_loop g msgs (seg ++ rest) failure st) m =
    prepend (pass_events g msgs st seg)
      (run (stream_loop g msgs rest failure (fold_left take_in seg st))
         (m + length (boundary_texts (g_chunkBatchSize g) st seg))).
Proof.
  induction seg as [|chunk seg IH]; intros st m rest failure Hpass.
  - cbn [app boundary_texts pass_events fold_left length].
    rewrite Nat.add_0_r, prepend_nil. reflexivity.
  - cbn [app stream_loop boundary_texts pass_events fold_left] in *.
    run_step.
    destruct (rem_is_zero (chunkCount (take_in st chunk)) (g_chunkBatchSize g)) eqn:Hb.
    + destruct (Hpass 0%nat _ eq_refl) as [r [Hr Hnb]].
      rewrite Nat.add_0_r in Hr.
      unfold closing. run_step. rewrite run_RESPONSE_CONDITION.
      cbn [msg_content new_AIMessage]. rewrite Hr.
      cbn [check_of shouldBlock]. cbn beta iota. rewrite Hnb. run_step.
      rewrite IH.
      * cbn [length]. rewrite Nat.add_succ_r.
        destruct (run _ _) as [[o evs] n']. reflexivity.
      * intros i text Hi. specialize (Hpass (S i) text Hi).
        rewrite Nat.add_succ_r in Hpass. exact Hpass.
    + run_step. rewrite IH by exact Hpass.
      destruct (run _ _) as [[o evs] n']. reflexivity.
Qed.

Lemma stream_prompt_block (g : Guarded) (input : Input) (options : CallOptions)
    (n : nat) (msgs : list BaseMessage) (r : GuardrailsResponse) :
  convertInputToChatMessages input = Return msgs ->
  prompt_verdict g msgs n = Return r ->
  is_blocking (action r) = true ->
  run (guarded_stream g input options) n =
  (Return tt,
   [EvFetch (prompt_request g msgs);
    EvYield (new_AIMessageChunk (or_default (revised_response r) PROMPT_OVERRIDE))],
   S n).
Proof.
  intros Hmsgs Hverdict Hblock.
  unfold guarded_stream, extractMessages.
  run_step. rewrite Hmsgs. run_step.
  rewrite run_PROMPT_CONDITION, Hverdict.
  cbn [check_of shouldBlock overrideResponse]. cbn beta iota.
  rewrite Hblock. run_step. reflexivity.
Qed.

Lemma run_tail_check (g : Guarded) (msgs : list BaseMessage) (st : LoopState)
    (m : nat) :
  run (tail_check g msgs st) m =
  if tail_due g st then
    (unit_outcome (response_verdict g msgs (accumulatedContent st) m),
     EvFetch (response_request g msgs (accumulatedContent st))
     :: override_events (response_verdict g msgs (accumulatedContent st) m),
     S m)
  else (Return tt, [], m).
Proof.
  unfold tail_check, tail_due.
  destruct (lastChunk st); [|reflexivity].
  destruct (rem_is_zero _ _); cbn [negb]; [reflexivity|].
  run_step. rewrite run_RESPONSE_CONDITION. cbn [msg_content new_AIMessage].
  destruct (response_verdict _ _ _ _) as [r|e];
    cbn [check_of shouldBlock overrideResponse unit_outcome override_events];
    cbn beta iota; [|reflexivity].
  destruct (is_blocking (action r)); run_step; reflexivity.
Qed.

(** A streaming call whose prompt check does not block: the prompt check,
    the call to the wrapped [stream], then the loop and the check after it. *)
Lemma stream_prompt_pass (g : Guarded) (input : Input) (options : CallOptions)
    (n : nat) (msgs : list BaseMessage) (r : GuardrailsResponse) (src : Source) :
  convertInputToChatMessages input = Return msgs ->
  prompt_verdict g msgs n = Return r ->
  is_blocking (action r) = false ->
  orig_stream (target g) input options = Return src ->
  run (guarded_stream g input options) n =
  prepend [EvFetch (prompt_request g msgs); EvStream (target g) input options]
    (match run (stream_loop g msgs (src_chunks src) (src_failure src) loop_start)
             (S n) with
     | (Return st, evs, m) => prepend evs (run (tail_check g msgs st) m)
     | (Throw e, evs, m) => (Throw e, evs, m)
     end).
Proof.
  intros Hmsgs Hverdict Hpass Hsrc.
  unfold guarded_stream, extractMessages.
  run_step. rewrite Hmsgs. run_step.
  rewrite run_PROMPT_CONDITION, Hverdict.
  cbn [check_of shouldBlock overrideResponse]. cbn beta iota.
  rewrite Hpass. run_step. rewrite Hsrc. run_step.
  destruct (run (stream_loop _ _ _ _ _) _) as [[[st|e] evs] m]; cbn beta iota.
  - destruct (run (tail_check g msgs st) m) as [[o evs'] m']. reflexivity.
  - reflexivity.
Qed.

Lemma pass_events_yielded (g : Guarded) (msgs : list BaseMessage)
    (seg : list AIMessageChunk) :
  forall st, yielded (pass_events g msgs st seg) = seg.
Proof.
  induction seg as [|c seg IH]; intros st; [reflexivity|].
  cbn [pass_events]. destruct (rem_is_zero _ _); cbn; rewrite IH; reflexivity.
Qed.

Lemma pass_events_consumed (g : Guarded) (msgs : list BaseMessage)
    (seg : list AIMessageChunk) :
  forall st, consumed (pass_events g msgs st seg) = seg.
Proof.
  induction seg as [|c seg IH]; intros st; [reflexivity|].
  cbn [pass_events]. destruct (rem_is_zero _ _); cbn; rewrite IH; reflexivity.
Qed.

Lemma pass_events_model_calls (g : Guarded) (msgs : list BaseMessage)
    (seg : list AIMessageChunk) :
  forall st, model_calls (pass_events g msgs st seg) = [].
Proof.
  induction seg as [|c seg IH]; intros st; [reflexivity|].
  cbn [pass_events]. destruct (rem_is_zero _ _); cbn; rewrite IH; reflexivity.
Qed.

Lemma pass_events_response_checks (g : Guarded) (msgs : list BaseMessage)
    (seg : list AIMessageChunk) :
  forall st,
    response_checks (pass_events g msgs st seg) =
    boundary_texts (g_chunkBatchSize g) st seg.
Proof.
  induction seg as [|c seg IH]; intros st; [reflexivity|].
  cbn [pass_events boundary_texts].
  unfold response_checks in *.
  destruct (rem_is_zero _ _); cbn [app requests filter].
  - change (is_response_request
              (response_request g msgs (accumulatedContent (take_in st c))))
      with true.
    cbn beta iota. cbn [map]. rewrite IH. reflexivity.
  - apply IH.
Qed.

Lemma pass_events_after_exhaustion (g : Guarded) (msgs : list BaseMessage)
    (seg : list AIMessageChunk) (tl : list Event) :
  forall st,
    after_exhaustion (pass_events g msgs st seg ++ tl) = after_exhaustion tl.
Proof.
  induction seg as [|c seg IH]; intros st; [reflexivity|].
  cbn [pass_events]. destruct (rem_is_zero _ _); cbn; rewrite IH; reflexivity.
Qed.


Lemma ceil_div (F b : nat) :
  (0 < b)%nat ->
  ((F + b - 1) / b = F / b + (if (F mod b =? 0)%nat then 0 else 1))%nat.
Proof.
  intros Hb.
  pose proof (Nat.div_mod_eq F b) as HF.
  pose proof (Nat.mod_upper_bound F b ltac:(lia)) as Hr.
  destruct (Nat.eqb_spec (F mod b) 0) as [E|E].
  - symmetry. apply Nat.div_unique with (r := (b - 1)%nat); lia.
  - symmetry. apply Nat.div_unique with (r := (F mod b - 1)%nat); lia.
Qed.

Lemma tail_due_nat (g : Guarded) (b : nat) (chunks : list AIMessageChunk) :
  g_chunkBatchSize g = Z.of_nat b -> (0 < b)%nat ->
  tail_due g (state_after chunks) = negb (length chunks mod b =? 0)%nat.
Proof.
  intros HB Hb. unfold tail_due.
  destruct (state_after_spec chunks) as [Hc [_ Hl]].
  rewrite Hc, HB, rem_is_zero_nat by exact Hb.
  destruct (lastChunk (state_after chunks)); [reflexivity|].
  rewrite (proj1 Hl eq_refl). cbn [length]. rewrite Nat.Div0.mod_0_l. reflexivity.
Qed.

Lemma nth_error_map_seq {A : Type} (f : nat -> A) (s len i : nat) (a : A) :
  nth_error (map f (seq s len)) i = Some a -> (i < len)%nat /\ a = f (s + i)%nat.
Proof.
  rewrite nth_error_map, nth_error_seq.
  destruct (Nat.ltb_spec i len) as [Hi|Hi]; cbn; [|discriminate].
  intros Ha. split; [assumption|congruence].
Qed.

(** C2: with a positive batch size [b], a prompt check that passes, a
    source that delivers [F] fragments and completes, and every response
    check passing, the guarded stream yields exactly the [F] fragments,
    unchanged and in order, and sends [ceil (F / b)] response checks: one
    after each fragment whose count is a multiple of [b], on the text of
    the fragments up to it, and one after the end of the source exactly
    when [F mod b] is not zero (which needs [F > 0]), on the whole text. *)
Theorem stream_all_pass (g : Guarded) (input : Input) (options : CallOptions)
    (n : nat) (msgs : list BaseMessage) (r : GuardrailsResponse)
    (chunks : list AIMessageChunk) (b : nat) :
  g_chunkBatchSize g = Z.of_nat b ->
  (0 < b)%nat ->
  convertInputToChatMessages input = Return msgs ->
  prompt_verdict g msgs n = Return r ->
  is_blocking (action r) = false ->
  orig_stream (target g) input options = Return (mkSource chunks None) ->
  (forall j, (1 <= j)%nat -> ((j - 1) * b < length chunks)%nat ->
             passes g msgs (text_of (firstn (j * b) chunks)) (n + j)) ->
  let F := length chunks in
  let tr := trace_of (run (guarded_stream g input options) n) in
  result_of (run (guarded_stream g input options) n) = Return tt
  /\ yielded tr = chunks
  /\ consumed tr = chunks
  /\ response_checks tr =
       map (fun j => text_of (firstn (j * b) chunks)) (seq 1 (F / b))
       ++ (if (F mod b =? 0)%nat then [] else [text_of chunks])
  /\ length (response_checks tr) = ((F + b - 1) / b)%nat
  /\ response_checks (after_exhaustion tr) =
       (if (0 <? F)%nat && negb (F mod b =? 0)%nat then [text_of chunks] else [])
  /\ tr = [EvFetch (prompt_request g msgs); EvStream (target g) input options]
          ++ pass_events g msgs loop_start chunks
          ++ EvNext None
             :: (if (F mod b =? 0)%nat then []
                 else [EvFetch (response_request g msgs (text_of chunks))]).
Proof.
  intros HB Hb Hmsgs Hverdict Hpass Hsrc Hchecks F tr.
  assert (Hclosed :
    boundary_texts (g_chunkBatchSize g) loop_start chunks =
    map (fun j => text_of (firstn (j * b) chunks)) (seq 1 (F / b))).
  { rewrite HB. change loop_start with (state_after []).
    rewrite (@boundary_texts_closed b chunks Hb []). cbn [app length].
    rewrite Nat.Div0.div_0_l, Nat.sub_0_r. reflexivity. }
  assert (Hrun : run (guarded_stream g input options) n =
    (Return tt,
     [EvFetch (prompt_request g msgs); EvStream (target g) input options]
     ++ pass_events g msgs loop_start chunks
     ++ EvNext None
        :: (if (F mod b =? 0)%nat then []
            else [EvFetch (response_request g msgs (text_of chunks))]),
     (S n + F / b + (if (F mod b =? 0)%nat then 0 else 1))%nat)).
  { rewrite (stream_prompt_pass g input options n Hmsgs Hverdict Hpass Hsrc).
    cbn [src_chunks src_failure].
    rewrite <- (app_nil_r chunks) at 1.
    rewrite loop_segment.
    2:{ intros i text Hi. rewrite Hclosed in Hi.
        apply nth_error_map_seq in Hi. destruct Hi as [Hi ->].
        replace (S n + i)%nat with (n + (1 + i))%nat by lia.
        apply Hchecks; [lia|].
        assert ((S i) * b <= F)%nat.
        { pose proof (Nat.div_mod_eq F b). nia. }
        nia. }
    rewrite Hclosed, length_map, length_seq.
    cbn [stream_loop]. run_step.
    change (fold_left take_in chunks loop_start) with (state_after chunks).
    unfold prepend at 2. cbn [result_of trace_of fst snd]. cbn beta iota.
    rewrite run_tail_check, (@tail_due_nat g b chunks HB Hb).
    destruct (state_after_spec chunks) as [_ [Ht _]]. rewrite Ht.
    fold F. destruct (Nat.eqb_spec (F mod b) 0) as [E|E]; cbn [negb].
    - unfold prepend, result_of, trace_of. cbn [fst snd].
      rewrite app_nil_r, Nat.add_0_r. reflexivity.
    - destruct (Hchecks (F / b + 1)%nat) as [r2 [Hr2 Hnb]]; [lia| |].
      { pose proof (Nat.div_mod_eq F b). fold F. nia. }
      rewrite firstn_all2 in Hr2.
      2:{ pose proof (Nat.div_mod_eq F b).
          pose proof (Nat.mod_upper_bound F b ltac:(lia)). fold F. nia. }
      replace (n + (F / b + 1))%nat with (S n + F / b)%nat in Hr2 by lia.
      rewrite Hr2. cbn [unit_outcome override_events]. rewrite Hnb.
      unfold prepend, result_of, trace_of. cbn [fst snd].
      replace (S n + F / b + 1)%nat with (S (S n + F / b)) by lia.
      rewrite <- app_assoc. reflexivity. }
  subst tr. rewrite Hrun. unfold result_of, trace_of. cbn [fst snd].
  assert (Hchk :
    response_checks
      ([EvFetch (prompt_request g msgs); EvStream (target g) input options]
       ++ pass_events g msgs loop_start chunks
       ++ EvNext None
          :: (if (F mod b =? 0)%nat then []
              else [EvFetch (response_request g msgs (text_of chunks))])) =
    map (fun j => text_of (firstn (j * b) chunks)) (seq 1 (F / b))
    ++ (if (F mod b =? 0)%nat then [] else [text_of chunks])).
  { rewrite !response_checks_app, pass_events_response_checks, Hclosed.
    destruct (F mod b =? 0)%nat; reflexivity. }
  repeat split.
  - rewrite !yielded_app, pass_events_yielded.
    destruct (F mod b =? 0)%nat; cbn; rewrite app_nil_r; reflexivity.
  - rewrite !consumed_app, pass_events_consumed.
    destruct (F mod b =? 0)%nat; cbn; rewrite app_nil_r; reflexivity.
  - exact Hchk.
  - rewrite Hchk, length_app, length_map, length_seq, (@ceil_div F b Hb).
    destruct (F mod b =? 0)%nat; reflexivity.
  - cbn [app after_exhaustion]. rewrite pass_events_after_exhaustion.
    cbn [after_exhaustion].
    destruct (Nat.eqb_spec (F mod b) 0) as [E|E].
    + rewrite andb_false_r. reflexivity.
    + assert (0 < F)%nat.
      { destruct F; [rewrite Nat.Div0.mod_0_l in E; lia|lia]. }
      destruct (Nat.ltb_spec 0 F); [reflexivity|lia].
Qed.


Lemma firstn_app_le {A : Type} (m : nat) (l1 l2 : list A) :
  (m <= length l1)%nat -> firstn m (l1 ++ l2) = firstn m l1.
Proof.
  intros Hm. rewrite firstn_app.
  replace (m - length l1)%nat with 0%nat by lia.
  cbn [firstn]. apply app_nil_r.
Qed.

Lemma firstn_app_exact {A : Type} (l1 l2 : list A) :
  firstn (length l1) (l1 ++ l2) = l1.
Proof. rewrite firstn_app_le by lia. apply firstn_all. Qed.

Lemma pred_mul_div (k b : nat) :
  (1 <= k)%nat -> (0 < b)%nat -> ((k * b - 1) / b = k - 1)%nat.
Proof.
  intros Hk Hb. symmetry.
  apply Nat.div_unique with (r := (b - 1)%nat); [lia|]. nia.
Qed.

(** A streaming call stopped by the check at fragment count [k * b]. *)
Lemma stream_block_at_boundary (g : Guarded) (input : Input)
    (options : CallOptions) (n : nat) (msgs : list BaseMessage)
    (r r2 : GuardrailsResponse) (src : Source) (b k : nat) :
  g_chunkBatchSize g = Z.of_nat b ->
  (0 < b)%nat ->
  convertInputToChatMessages input = Return msgs ->
  prompt_verdict g msgs n = Return r ->
  is_blocking (action r) = false ->
  orig_stream (target g) input options = Return src ->
  (1 <= k)%nat ->
  (k * b <= length (src_chunks src))%nat ->
  (forall j, (1 <= j < k)%nat ->
             passes g msgs (text_of (firstn (j * b) (src_chunks src))) (n + j)) ->
  response_verdict g msgs (text_of (firstn (k * b) (src_chunks src))) (n + k)
    = Return r2 ->
  is_blocking (action r2) = true ->
  exists c,
    nth_error (src_chunks src) (k * b - 1) = Some c
    /\ run (guarded_stream g input options) n =
       (Return tt,
        [EvFetch (prompt_request g msgs); EvStream (target g) input options]
        ++ pass_events g msgs loop_start (firstn (k * b - 1) (src_chunks src))
        ++ [EvNext (Some c);
            EvFetch (response_request g msgs
                       (text_of (firstn (k * b) (src_chunks src))));
            EvYield (new_AIMessageChunk
                       (or_default (revised_response r2) RESPONSE_OVERRIDE));
            EvClose],
        S (n + k)).
Proof.
  intros HB Hb Hmsgs Hverdict Hpass Hsrc Hk HF Hchecks Hr2 Hblock.
  destruct (nth_error (src_chunks src) (k * b - 1)) as [c|] eqn:Hc.
  2:{ apply nth_error_None in Hc. nia. }
  exists c. split; [reflexivity|].
  destruct (nth_error_split _ _ Hc) as [l1 [l2 [Hsplit Hlen]]].
  assert (Hseg : firstn (k * b - 1) (src_chunks src) = l1).
  { rewrite Hsplit, <- Hlen. apply firstn_app_exact. }
  assert (Hupto : firstn (k * b) (src_chunks src) = l1 ++ [c]).
  { rewrite Hsplit. change (l1 ++ c :: l2) with (l1 ++ [c] ++ l2).
    rewrite app_assoc.
    replace (k * b)%nat with (length (l1 ++ [c]))
      by (rewrite length_app; cbn [length]; nia).
    apply firstn_app_exact. }
  assert (Hclosed :
    boundary_texts (g_chunkBatchSize g) loop_start l1 =
    map (fun j => text_of (firstn (j * b) l1)) (seq 1 (k - 1))).
  { rewrite HB. change loop_start with (state_after []).
    rewrite (@boundary_texts_closed b l1 Hb []). cbn [app length].
    rewrite Nat.Div0.div_0_l, Nat.sub_0_r, !Nat.add_0_l.
    rewrite Hlen, pred_mul_div by assumption.
    reflexivity. }
  rewrite (stream_prompt_pass g input options n Hmsgs Hverdict Hpass Hsrc).
  rewrite Hseg, Hupto. rewrite Hsplit at 1.
  rewrite loop_segment.
  2:{ intros i text Hi. rewrite Hclosed in Hi.
      apply nth_error_map_seq in Hi. destruct Hi as [Hi ->].
      replace (S n + i)%nat with (n + (1 + i))%nat by lia.
      rewrite <- (@firstn_app_le _ ((1 + i) * b) l1 (c :: l2)) by nia.
      rewrite <- Hsplit. apply Hchecks. lia. }
  rewrite Hclosed, length_map, length_seq.
  change (fold_left take_in l1 loop_start) with (state_after l1).
  cbn [stream_loop]. run_step.
  rewrite <- state_after_snoc.
  destruct (state_after_spec (l1 ++ [c])) as [Hcount [Htext _]].
  assert (Hzero : rem_is_zero (chunkCount (state_after (l1 ++ [c])))
                    (g_chunkBatchSize g) = true).
  { rewrite Hcount, HB, rem_is_zero_nat by exact Hb.
    rewrite length_app. cbn [length].
    replace (length l1 + 1)%nat with (k * b)%nat by nia.
    rewrite Nat.Div0.mod_mul. reflexivity. }
  rewrite Hzero. unfold closing. run_step.
  rewrite run_RESPONSE_CONDITION. cbn [msg_content new_AIMessage].
  rewrite Htext.
  rewrite Hupto in Hr2.
  replace (S n + (k - 1))%nat with (n + k)%nat by lia.
  rewrite Hr2. cbn [check_of shouldBlock overrideResponse]. cbn beta iota.
  rewrite Hblock. run_step.
  unfold prepend at 2. cbn [result_of trace_of fst snd]. cbn beta iota.
  rewrite run_tail_check. unfold tail_due. rewrite Hzero.
  destruct (lastChunk (state_after (l1 ++ [c])));
    unfold prepend, result_of, trace_of; cbn [fst snd negb app];
    rewrite ?app_nil_r; reflexivity.
Qed.


Lemma firstn_snoc_nth {A : Type} (l : list A) :
  forall (i : nat) (c : A),
    nth_error l i = Some c -> firstn (S i) l = firstn i l ++ [c].
Proof.
  induction l as [|a l IH]; intros [|i] c H; try discriminate.
  - cbn in H. injection H as ->. reflexivity.
  - cbn in H. cbn [firstn app]. f_equal. apply IH. exact H.
Qed.

Lemma boundary_texts_prefix (b m : nat) (chunks : list AIMessageChunk) :
  (0 < b)%nat -> (m <= length chunks)%nat ->
  boundary_texts (Z.of_nat b) loop_start (firstn m chunks) =
  map (fun j => text_of (firstn (j * b) chunks)) (seq 1 (m / b)).
Proof.
  intros Hb Hm. change loop_start with (state_after []).
  rewrite (@boundary_texts_closed b (firstn m chunks) Hb []). cbn [app length].
  rewrite Nat.Div0.div_0_l, Nat.sub_0_r, !Nat.add_0_l.
  rewrite length_firstn, Nat.min_l by exact Hm.
  apply map_ext_in. intros j Hj. apply in_seq in Hj.
  rewrite firstn_firstn, Nat.min_l; [reflexivity|].
  pose proof (Nat.div_mod_eq m b). nia.
Qed.

(** C3, as the code has it: when the checks before it pass and the check at
    fragment count [k * b] blocks, the guarded stream has taken exactly the
    first [k * b] fragments from the source, has yielded the first
    [k * b - 1] of them followed by one override chunk (the fragment that
    completes the batch is withheld), and ends there: the source is closed,
    its end is never reached, and the blocking check is the last request. *)
Theorem stream_blocked_at_boundary (g : Guarded) (input : Input)
    (options : CallOptions) (n : nat) (msgs : list BaseMessage)
    (r r2 : GuardrailsResponse) (src : Source) (b k : nat) :
  g_chunkBatchSize g = Z.of_nat b ->
  (0 < b)%nat ->
  convertInputToChatMessages input = Return msgs ->
  prompt_verdict g msgs n = Return r ->
  is_blocking (action r) = false ->
  orig_stream (target g) input options = Return src ->
  (1 <= k)%nat ->
  (k * b <= length (src_chunks src))%nat ->
  (forall j, (1 <= j < k)%nat ->
             passes g msgs (text_of (firstn (j * b) (src_chunks src))) (n + j)) ->
  response_verdict g msgs (text_of (firstn (k * b) (src_chunks src))) (n + k)
    = Return r2 ->
  is_blocking (action r2) = true ->
  let tr := trace_of (run (guarded_stream g input options) n) in
  let override :=
    new_AIMessageChunk (or_default (revised_response r2) RESPONSE_OVERRIDE) in
  result_of (run (guarded_stream g input options) n) = Return tt
  /\ yielded tr = firstn (k * b - 1) (src_chunks src) ++ [override]
  /\ consumed tr = firstn (k * b) (src_chunks src)
  /\ response_checks tr =
       map (fun j => text_of (firstn (j * b) (src_chunks src))) (seq 1 k)
  /\ after_exhaustion tr = []
  /\ exists tr0,
       tr = tr0 ++ [EvFetch (response_request g msgs
                               (text_of (firstn (k * b) (src_chunks src))));
                    EvYield override; EvClose].
Proof.
  intros HB Hb Hmsgs Hverdict Hpass Hsrc Hk HF Hchecks Hr2 Hblock tr override.
  destruct (@stream_block_at_boundary g input options n msgs r r2 src b k
              HB Hb Hmsgs Hverdict Hpass Hsrc Hk HF Hchecks Hr2 Hblock)
    as [c [Hc Hrun]].
  subst tr. rewrite Hrun. unfold result_of, trace_of. cbn [fst snd].
  fold override.
  repeat split.
  - rewrite !yielded_app, pass_events_yielded. reflexivity.
  - rewrite !consumed_app, pass_events_consumed. cbn [consumed app].
    replace (k * b)%nat with (S (k * b - 1)) at 2 by nia.
    symmetry. apply firstn_snoc_nth. exact Hc.
  - rewrite !response_checks_app, pass_events_response_checks, HB.
    rewrite boundary_texts_prefix by (assumption || lia).
    rewrite pred_mul_div by assumption.
    replace k with (S (k - 1)) at 3 by lia.
    rewrite seq_S, map_app. cbn [map app].
    replace (1 + (k - 1))%nat with k by lia. reflexivity.
  - cbn [app after_exhaustion]. rewrite pass_events_after_exhaustion. reflexivity.
  - eexists ([_; _] ++ pass_events g msgs loop_start _ ++ [_]).
    rewrite <- !app_assoc. reflexivity.
Qed.

(** A streaming call whose batch checks pass and whose last check, after
    the end of the source, blocks. *)
Lemma stream_block_at_tail (g : Guarded) (input : Input)
    (options : CallOptions) (n : nat) (msgs : list BaseMessage)
    (r r2 : GuardrailsResponse) (chunks : list AIMessageChunk) (b : nat) :
  g_chunkBatchSize g = Z.of_nat b ->
  (0 < b)%nat ->
  convertInputToChatMessages input = Return msgs ->
  prompt_verdict g msgs n = Return r ->
  is_blocking (action r) = false ->
  orig_stream (target g) input options = Return (mkSource chunks None) ->
  (length chunks mod b <> 0)%nat ->
  (forall j, (1 <= j)%nat -> (j * b <= length chunks)%nat ->
             passes g msgs (text_of (firstn (j * b) chunks)) (n + j)) ->
  response_verdict g msgs (text_of chunks) (n + (length chunks / b + 1))
    = Return r2 ->
  is_blocking (action r2) = true ->
  run (guarded_stream g input options) n =
  (Return tt,
   [EvFetch (prompt_request g msgs); EvStream (target g) input options]
   ++ pass_events g msgs loop_start chunks
   ++ [EvNext None;
       EvFetch (response_request g msgs (text_of chunks));
       EvYield (new_AIMessageChunk
                  (or_default (revised_response r2) RESPONSE_OVERRIDE))],
   S (n + (length chunks / b + 1))).
Proof.
  intros HB Hb Hmsgs Hverdict Hpass Hsrc Hmod Hchecks Hr2 Hblock.
  rewrite (@stream_prompt_pass g input options n msgs r _ Hmsgs Hverdict Hpass Hsrc).
  cbn [src_chunks src_failure].
  rewrite <- (app_nil_r chunks) at 1.
  rewrite loop_segment.
  2:{ intros i text Hi. rewrite HB in Hi.
      rewrite <- (firstn_all chunks) in Hi at 1.
      rewrite boundary_texts_prefix in Hi by (assumption || lia).
      apply nth_error_map_seq in Hi. destruct Hi as [Hi ->].
      replace (S n + i)%nat with (n + (1 + i))%nat by lia.
      apply Hchecks; [lia|].
      pose proof (Nat.div_mod_eq (length chunks) b). nia. }
  rewrite HB. rewrite <- (firstn_all chunks) at 3.
  rewrite boundary_texts_prefix, length_map, length_seq by (assumption || lia).
  cbn [stream_loop]. run_step.
  change (fold_left take_in chunks loop_start) with (state_after chunks).
  unfold prepend at 2. cbn [result_of trace_of fst snd]. cbn beta iota.
  rewrite run_tail_check, (@tail_due_nat g b chunks HB Hb).
  destruct (state_after_spec chunks) as [_ [Ht _]]. rewrite Ht.
  destruct (Nat.eqb_spec (length chunks mod b) 0) as [E|_]; [contradiction|].
  cbn [negb].
  replace (S n + length chunks / b)%nat with (n + (length chunks / b + 1))%nat
    by lia.
  rewrite Hr2. cbn [unit_outcome override_events]. rewrite Hblock.
  unfold prepend, result_of, trace_of. cbn [fst snd].
  rewrite <- app_assoc. reflexivity.
Qed.

(** C1, as the code has it: when the prompt check answers block, modify or
    rephrase, neither the single-turn call nor the stream calls the wrapped
    model; the call returns one assistant message and the stream yields one
    chunk and ends, taking nothing from any source; the content of both is
    the revised text when that is a non-empty string and the fixed prompt
    override otherwise. *)
Theorem prompt_block_short_circuits (g : Guarded) (input : Input)
    (options : CallOptions) (n : nat) (msgs : list BaseMessage)
    (r : GuardrailsResponse) :
  convertInputToChatMessages input = Return msgs ->
  prompt_verdict g msgs n = Return r ->
  action r = block \/ action r = modify \/ action r = rephrase ->
  let content := or_default (revised_response r) PROMPT_OVERRIDE in
  let call := run (guarded_invoke g input options) n in
  let stream := run (guarded_stream g input options) n in
  result_of call = Return (new_AIMessage content)
  /\ model_calls (trace_of call) = []
  /\ result_of stream = Return tt
  /\ yielded (trace_of stream) = [new_AIMessageChunk content]
  /\ model_calls (trace_of stream) = []
  /\ consumed (trace_of stream) = []
  /\ (content = "[Prompt intercepted: custom response]"
      \/ (revised_response r = Some content /\ content <> EmptyString)).
Proof.
  intros Hmsgs Hverdict Haction content call stream.
  assert (Hblock : is_blocking (action r) = true)
    by (destruct Haction as [->|[->| ->]]; reflexivity).
  subst call stream.
  rewrite (@invoke_prompt_block g input options n msgs r Hmsgs Hverdict Hblock).
  rewrite (@stream_prompt_block g input options n msgs r Hmsgs Hverdict Hblock).
  repeat split.
  subst content. unfold or_default.
  destruct (revised_response r) as [[|c s]|]; cbn [truthy_string].
  - left; reflexivity.
  - right. split; [reflexivity|discriminate].
  - left; reflexivity.
Qed.

(** *** The streaming call: what every check submits *)

Lemma checks_on_accumulated_app (l1 l2 : list Event) :
  forall seen,
    checks_on_accumulated seen (l1 ++ l2) <->
    checks_on_accumulated seen l1
    /\ checks_on_accumulated (seen ++ consumed l1) l2.
Proof.
  induction l1 as [|e l1 IH]; intros seen.
  - cbn. rewrite app_nil_r. tauto.
  - destruct e as [req| | |[c|]| | | | |]; cbn [app checks_on_accumulated consumed];
      rewrite ?IH; try tauto.
    rewrite <- app_assoc. cbn [app]. tauto.
Qed.

Lemma response_request_payload (g : Guarded) (msgs : list BaseMessage)
    (text : string) :
  payload_response (req_body (response_request g msgs text)) = text.
Proof. reflexivity. Qed.

Lemma loop_checks (g : Guarded) (msgs : list BaseMessage)
    (pending : list AIMessageChunk) (failure : option Exn) :
  forall (st : LoopState) (m : nat) (seen : list AIMessageChunk),
    accumulatedContent st = text_of seen ->
    checks_on_accumulated seen
      (trace_of (run (stream_loop g msgs pending failure st) m)).
Proof.
  induction pending as [|c rest IH]; intros st m seen Hacc.
  - cbn [stream_loop]. destruct failure; run_step; cbn; exact I.
  - assert (Hacc' : accumulatedContent (take_in st c) = text_of (seen ++ [c])).
    { rewrite text_of_snoc. cbn [take_in accumulatedContent]. rewrite Hacc.
      reflexivity. }
    cbn [stream_loop]. run_step.
    destruct (rem_is_zero _ _).
    + unfold closing. run_step. rewrite run_RESPONSE_CONDITION.
      cbn [msg_content new_AIMessage].
      destruct (response_verdict _ _ _ _) as [r2|e];
        cbn [check_of shouldBlock overrideResponse]; cbn beta iota.
      * destruct (is_blocking (action r2)); run_step.
        -- unfold trace_of. cbn [fst snd app checks_on_accumulated].
           rewrite response_request_payload.
           split; [intros _; exact Hacc'|exact I].
        -- specialize (IH (take_in st c) (S m) (seen ++ [c]) Hacc').
           destruct (run _ _) as [[o evs] m'].
           unfold trace_of in *. cbn [fst snd app checks_on_accumulated] in *.
           rewrite response_request_payload.
           split; [intros _; exact Hacc'|exact IH].
      * run_step. unfold trace_of. cbn [fst snd app checks_on_accumulated].
        rewrite response_request_payload.
        split; [intros _; exact Hacc'|exact I].
    + run_step. specialize (IH (take_in st c) m (seen ++ [c]) Hacc').
      destruct (run _ _) as [[o evs] m']. cbn in *. exact IH.
Qed.

(** How the loop can end: by exhaustion of a source that completes, with
    every fragment taken; by [break], at a batch boundary; or by an
    exception, which comes from the boundary check unless the source
    fails. *)
Lemma loop_outcome (g : Guarded) (msgs : list BaseMessage)
    (pending : list AIMessageChunk) (failure : option Exn) :
  forall (st : LoopState) (m : nat),
    match run (stream_loop g msgs pending failure st) m with
    | (Return st', evs, _) =>
        st' = fold_left take_in (consumed evs) st
        /\ ((forall tl, after_exhaustion (evs ++ tl) = tl)
            \/ ((forall tl, after_exhaustion (evs ++ tl) = after_exhaustion tl)
                /\ rem_is_zero (chunkCount st') (g_chunkBatchSize g) = true))
    | (Throw _, evs, _) =>
        (forall tl, after_exhaustion (evs ++ tl) = after_exhaustion tl)
        /\ (failure = None ->
            rem_is_zero (chunkCount (fold_left take_in (consumed evs) st))
              (g_chunkBatchSize g) = true)
    end.
Proof.
  induction pending as [|c rest IH]; intros st m.
  - cbn [stream_loop]. destruct failure; run_step; cbn.
    + split; [reflexivity|discriminate].
    + split; [reflexivity|]. left. reflexivity.
  - cbn [stream_loop]. run_step.
    destruct (rem_is_zero _ _) eqn:Hz.
    + unfold closing. run_step. rewrite run_RESPONSE_CONDITION.
      cbn [msg_content new_AIMessage].
      destruct (response_verdict _ _ _ _) as [r2|e];
        cbn [check_of shouldBlock overrideResponse]; cbn beta iota.
      * destruct (is_blocking (action r2)); run_step.
        -- cbn. split; [reflexivity|]. right. split; [reflexivity|exact Hz].
        -- specialize (IH (take_in st c) (S m)).
           destruct (run _ _) as [[[st'|e] evs] m']; cbn in *; exact IH.
      * run_step. cbn. split; [reflexivity|]. intros _. exact Hz.
    + run_step. specialize (IH (take_in st c) m).
      destruct (run _ _) as [[[st'|e] evs] m']; cbn in *; exact IH.
Qed.

Lemma rem_is_zero_divides (c B : Z) :
  rem_is_zero c B = true -> (B | c)%Z.
Proof.
  unfold rem_is_zero, js_rem.
  destruct (Z.eqb_spec B 0) as [->|HB]; [discriminate|].
  rewrite Z.eqb_eq. apply Z.rem_divide. exact HB.
Qed.

Lemma tail_events_quiet (v : Outcome GuardrailsResponse) :
  consumed (override_events v) = []
  /\ response_checks (override_events v) = []
  /\ forall seen, checks_on_accumulated seen (override_events v).
Proof.
  destruct v as [r|e]; cbn; [|repeat split].
  destruct (is_blocking (action r)); cbn; repeat split.
Qed.

(** C9: every response check of a streaming call, at a batch boundary or
    after the end of the source, submits the text of all the fragments
    taken from the source since the first one; and when the prompt check
    passes and the source completes, a check is sent after the end of the
    source exactly when at least one fragment was taken and the number of
    fragments taken is not a multiple of the batch size; that check
    submits the text of all of them. *)
Theorem stream_checks_whole_text (g : Guarded) (input : Input)
    (options : CallOptions) (n : nat) :
  let tr := trace_of (run (guarded_stream g input options) n) in
  checks_on_accumulated [] tr
  /\ forall msgs r src,
       convertInputToChatMessages input = Return msgs ->
       prompt_verdict g msgs n = Return r ->
       is_blocking (action r) = false ->
       orig_stream (target g) input options = Return src ->
       src_failure src = None ->
       (response_checks (after_exhaustion tr) <> [] <->
        consumed tr <> []
        /\ ~ (g_chunkBatchSize g | Z.of_nat (length (consumed tr)))%Z)
       /\ (response_checks (after_exhaustion tr) <> [] ->
           response_checks (after_exhaustion tr) = [text_of (consumed tr)]).
Proof.
  intros tr. split.
  - subst tr.
    destruct (convertInputToChatMessages input) as [msgs|e] eqn:Hmsgs.
    2:{ unfold guarded_stream, extractMessages. run_step. rewrite Hmsgs.
        cbn. exact I. }
    destruct (prompt_verdict g msgs n) as [r|e] eqn:Hverdict.
    2:{ unfold guarded_stream, extractMessages. run_step. rewrite Hmsgs.
        run_step. rewrite run_PROMPT_CONDITION, Hverdict. cbn.
        split; [discriminate|exact I]. }
    destruct (is_blocking (action r)) eqn:Hblock.
    { rewrite (@stream_prompt_block g input options n msgs r Hmsgs Hverdict Hblock).
      cbn. split; [discriminate|exact I]. }
    destruct (orig_stream (target g) input options) as [src|e] eqn:Hsrc.
    2:{ unfold guarded_stream, extractMessages. run_step. rewrite Hmsgs.
        run_step. rewrite run_PROMPT_CONDITION, Hverdict.
        cbn [check_of shouldBlock]. cbn beta iota. rewrite Hblock.
        run_step. rewrite Hsrc. cbn. split; [discriminate|exact I]. }
    rewrite (@stream_prompt_pass g input options n msgs r src Hmsgs Hverdict
               Hblock Hsrc).
    pose proof (@loop_checks g msgs (src_chunks src) (src_failure src)
                  loop_start (S n) [] eq_refl) as Hloop.
    pose proof (@loop_outcome g msgs (src_chunks src) (src_failure src)
                  loop_start (S n)) as Hout.
    destruct (run (stream_loop _ _ _ _ _) _) as [[[st'|e] evs] m'].
    + destruct Hout as [Hst' _].
      rewrite run_tail_check.
      unfold prepend, trace_of in *. cbn [fst snd] in *.
      cbn [app checks_on_accumulated]. split; [discriminate|].
      apply checks_on_accumulated_app. split; [exact Hloop|].
      cbn [app].
      destruct (tail_due g st'); cbn [fst snd]; [|exact I].
      cbn [checks_on_accumulated]. rewrite response_request_payload.
      split.
      * intros _. rewrite Hst'.
        change (fold_left take_in (consumed evs) loop_start)
          with (state_after (consumed evs)).
        apply (state_after_spec (consumed evs)).
      * apply tail_events_quiet.
    + unfold prepend, trace_of in *. cbn [fst snd] in *.
      cbn [app checks_on_accumulated]. split; [discriminate|exact Hloop].
  - intros msgs r src Hmsgs Hverdict Hpass Hsrc Hfail. subst tr.
    rewrite (@stream_prompt_pass g input options n msgs r src Hmsgs Hverdict
               Hpass Hsrc).
    pose proof (@loop_outcome g msgs (src_chunks src) (src_failure src)
                  loop_start (S n)) as Hout.
    destruct (run (stream_loop _ _ _ _ _) _) as [[[st'|e] evs] m'].
    + destruct Hout as [Hst' Hend].
      change (fold_left take_in (consumed evs) loop_start)
        with (state_after (consumed evs)) in Hst'.
      destruct (state_after_spec (consumed evs)) as [Hcount [Htext Hlast]].
      rewrite <- Hst' in Hcount, Htext, Hlast.
      rewrite run_tail_check.
      unfold prepend, trace_of, result_of. cbn [fst snd].
      cbn [app after_exhaustion consumed].
      assert (Hconsumed :
        consumed (evs ++ snd (fst
          (if tail_due g st'
           then (unit_outcome (response_verdict g msgs (accumulatedContent st') m'),
                 EvFetch (response_request g msgs (accumulatedContent st'))
                 :: override_events
                      (response_verdict g msgs (accumulatedContent st') m'),
                 S m')
           else (Return tt, [], m')))) = consumed evs).
      { rewrite consumed_app. destruct (tail_due g st'); cbn [fst snd consumed].
        - rewrite (proj1 (tail_events_quiet _)). apply app_nil_r.
        - apply app_nil_r. }
      rewrite Hconsumed. clear Hconsumed.
      destruct Hend as [Hexh|[Hno Hz]].
      * rewrite Hexh. unfold tail_due.
        destruct (lastChunk st') as [c|] eqn:Hlc.
        -- assert (Hne : consumed evs <> []).
           { intros E. apply Hlast in E. discriminate. }
           assert (Hpos : (0 < Z.of_nat (length (consumed evs)))%Z).
           { destruct (consumed evs); [contradiction|cbn [length]; lia]. }
           pose proof (@rem_is_zero_divide _ (g_chunkBatchSize g) Hpos) as Hdiv.
           rewrite Hcount.
           destruct (rem_is_zero (Z.of_nat (length (consumed evs)))
                       (g_chunkBatchSize g)); cbn [negb fst snd].
           ++ split; [|intros H; exfalso; apply H; reflexivity].
              split.
              ** intros H; exfalso; apply H; reflexivity.
              ** intros [_ H]. exfalso. apply H. apply Hdiv. reflexivity.
           ++ unfold response_checks. cbn [requests filter].
              change (is_response_request
                        (response_request g msgs (accumulatedContent st')))
                with true. cbn beta iota. cbn [map].
              rewrite response_request_payload.
              fold (response_checks
                      (override_events
                         (response_verdict g msgs (accumulatedContent st') m'))).
              rewrite (proj1 (proj2 (tail_events_quiet _))).
              split.
              ** split; [|discriminate]. intros _. split; [exact Hne|].
                 intros H. apply Hdiv in H. discriminate.
              ** intros _. rewrite Htext. reflexivity.
        -- cbn [fst snd]. split; [|intros H; exfalso; apply H; reflexivity].
           split.
           ++ intros H; exfalso; apply H; reflexivity.
           ++ intros [H _]. exfalso. apply H. apply Hlast. reflexivity.
      * rewrite Hno. unfold tail_due. rewrite Hz.
        destruct (lastChunk st'); cbn [negb fst snd after_exhaustion].
        all: split; [|intros H; exfalso; apply H; reflexivity].
        all: split; [intros H; exfalso; apply H; reflexivity|].
        all: intros [_ H]; exfalso; apply H; rewrite <- Hcount;
          apply rem_is_zero_divides; exact Hz.
    + destruct Hout as [Hno Hz]. specialize (Hz Hfail).
      change (fold_left take_in (consumed evs) loop_start)
        with (state_after (consumed evs)) in Hz.
      destruct (state_after_spec (consumed evs)) as [Hcount _].
      rewrite Hcount in Hz.
      unfold prepend, trace_of, result_of. cbn [fst snd].
      cbn [app after_exhaustion consumed].
      assert (Hae : after_exhaustion evs = [])
        by (rewrite <- (app_nil_r evs), Hno; reflexivity).
      rewrite Hae.
      split; [|intros H; exfalso; apply H; reflexivity].
      split; [intros H; exfalso; apply H; reflexivity|].
      intros [_ H]. exfalso. apply H. apply rem_is_zero_divides. exact Hz.
Qed.

(** *** Substitute content *)

Lemma or_default_falls_back (revised : option string) (fallback : string) :
  falls_back revised fallback (or_default revised fallback).
Proof. destruct revised as [[|c s]|]; reflexivity. Qed.

(** C10: wherever a check blocks (the prompt check of a call and of a
    stream, the response check of a call, the check of a stream at a batch
    boundary and the one after the end of the source), the substitute
    content is the revision of the service only when that is a non-empty
    string; a revision that is the empty string gives the fixed override
    of the site, as a missing one does. *)
Theorem empty_revision_falls_back (g : Guarded) (input : Input)
    (options : CallOptions) (n : nat) (msgs : list BaseMessage)
    (r : GuardrailsResponse) :
  convertInputToChatMessages input = Return msgs ->
  prompt_verdict g msgs n = Return r ->
  (is_blocking (action r) = true ->
   exists content,
     falls_back (revised_response r) "[Prompt intercepted: custom response]"
       content
     /\ result_of (run (guarded_invoke g input options) n) =
          Return (new_AIMessage content)
     /\ yielded (trace_of (run (guarded_stream g input options) n)) =
          [new_AIMessageChunk content])
  /\ (is_blocking (action r) = false ->
      (forall X r2,
         orig_invoke (target g) input options = Return X ->
         response_verdict g msgs (msg_content X) (S n) = Return r2 ->
         is_blocking (action r2) = true ->
         exists content,
           falls_back (revised_response r2)
             "[Response intercepted: custom override]" content
           /\ result_of (run (guarded_invoke g input options) n) =
                Return (new_AIMessage content))
      /\ (forall src b k r2,
            g_chunkBatchSize g = Z.of_nat b ->
            (0 < b)%nat ->
            orig_stream (target g) input options = Return src ->
            (1 <= k)%nat ->
            (k * b <= length (src_chunks src))%nat ->
            (forall j, (1 <= j < k)%nat ->
               passes g msgs (text_of (firstn (j * b) (src_chunks src))) (n + j)) ->
            response_verdict g msgs
              (text_of (firstn (k * b) (src_chunks src))) (n + k) = Return r2 ->
            is_blocking (action r2) = true ->
            exists content,
              falls_back (revised_response r2)
                "[Response intercepted: custom override]" content
              /\ yielded (trace_of (run (guarded_stream g input options) n)) =
                   firstn (k * b - 1) (src_chunks src)
                   ++ [new_AIMessageChunk content])
      /\ (forall chunks b r2,
            g_chunkBatchSize g = Z.of_nat b ->
            (0 < b)%nat ->
            orig_stream (target g) input options =
              Return (mkSource chunks None) ->
            (length chunks mod b <> 0)%nat ->
            (forall j, (1 <= j)%nat -> (j * b <= length chunks)%nat ->
               passes g msgs (text_of (firstn (j * b) chunks)) (n + j)) ->
            response_verdict g msgs (text_of chunks)
              (n + (length chunks / b + 1)) = Return r2 ->
            is_blocking (action r2) = true ->
            exists content,
              falls_back (revised_response r2)
                "[Response intercepted: custom override]" content
              /\ yielded (trace_of (run (guarded_stream g input options) n)) =
                   chunks ++ [new_AIMessageChunk content])).
Proof.
  intros Hmsgs Hverdict. split; [|intros Hpass; split; [|split]].
  - intros Hblock. eexists. split; [apply or_default_falls_back|].
    rewrite (@invoke_prompt_block g input options n msgs r Hmsgs Hverdict Hblock).
    rewrite (@stream_prompt_block g input options n msgs r Hmsgs Hverdict Hblock).
    split; reflexivity.
  - intros X r2 HX Hr2 Hblock2.
    eexists. split; [apply or_default_falls_back|].
    rewrite (@invoke_prompt_pass g input options n msgs r Hmsgs Hverdict Hpass).
    rewrite HX, Hr2, Hblock2. reflexivity.
  - intros src b k r2 HB Hb Hsrc Hk HF Hchecks Hr2 Hblock2.
    eexists. split; [apply or_default_falls_back|].
    destruct (@stream_block_at_boundary g input options n msgs r r2 src b k
                HB Hb Hmsgs Hverdict Hpass Hsrc Hk HF Hchecks Hr2 Hblock2)
      as [c [_ Hrun]].
    rewrite Hrun. unfold trace_of. cbn [fst snd].
    rewrite !yielded_app, pass_events_yielded. reflexivity.
  - intros chunks b r2 HB Hb Hsrc Hmod Hchecks Hr2 Hblock2.
    eexists. split; [apply or_default_falls_back|].
    rewrite (@stream_block_at_tail g input options n msgs r r2 chunks b
               HB Hb Hmsgs Hverdict Hpass Hsrc Hmod Hchecks Hr2 Hblock2).
    unfold trace_of. cbn [fst snd].
    rewrite !yielded_app, pass_events_yielded. reflexivity.
Qed.

(** *** The endpoint *)

Lemma strip_slashes_only (k : nat) :
  strip_trailing_slashes (slashes k) = EmptyString.
Proof.
  induction k as [|k IH]; [reflexivity|].
  cbn [slashes strip_trailing_slashes]. rewrite IH. reflexivity.
Qed.

Lemma slashes_app (j k : nat) :
  (slashes j ++ slashes k)%string = slashes (j + k).
Proof.
  induction j as [|j IH]; [reflexivity|].
  cbn [slashes String.append Nat.add]. rewrite IH. reflexivity.
Qed.

Lemma append_assoc (a b c : string) :
  ((a ++ b) ++ c)%string = (a ++ (b ++ c))%string.
Proof.
  induction a as [|x a IH]; [reflexivity|].
  cbn [String.append]. rewrite IH. reflexivity.
Qed.

Lemma append_empty_r (a : string) : (a ++ EmptyString)%string = a.
Proof.
  induction a as [|x a IH]; [reflexivity|].
  cbn [String.append]. rewrite IH. reflexivity.
Qed.

Lemma strip_unslashed (t : string) (k : nat) :
  ends_with_slash t = false ->
  strip_trailing_slashes (t ++ slashes k) = t.
Proof.
  induction t as [|c t IH]; intros Hend.
  - apply strip_slashes_only.
  - cbn [String.append strip_trailing_slashes].
    destruct t as [|c' t'].
    + cbn [String.append]. rewrite strip_slashes_only.
      cbn [ends_with_slash] in Hend. rewrite Hend. reflexivity.
    + rewrite IH by exact Hend. reflexivity.
Qed.

Lemma strip_decomposes (s : string) :
  ends_with_slash (strip_trailing_slashes s) = false
  /\ exists k, s = (strip_trailing_slashes s ++ slashes k)%string.
Proof.
  induction s as [|c s [IHend [k IHk]]].
  - split; [reflexivity|]. exists 0%nat. reflexivity.
  - cbn [strip_trailing_slashes].
    destruct (strip_trailing_slashes s) as [|c' r] eqn:Hs.
    + destruct (Ascii.eqb_spec c "/") as [->|Hc].
      * split; [reflexivity|]. exists (S k). cbn [String.append slashes].
        f_equal. exact IHk.
      * split.
        -- cbn [ends_with_slash]. apply Ascii.eqb_neq. exact Hc.
        -- exists k. cbn [String.append]. f_equal. exact IHk.
    + split.
      * exact IHend.
      * exists k. cbn [String.append]. f_equal. exact IHk.
Qed.

(** X1: [strip_trailing_slashes] removes exactly the slashes at the end:
    the string is its result followed by slashes only, the result does not
    end with a slash, and a string that does not end with a slash comes
    back unchanged whatever number of slashes is put after it. *)
Theorem strip_trailing_slashes_exact (s : string) :
  ends_with_slash (strip_trailing_slashes s) = false
  /\ (exists k, s = (strip_trailing_slashes s ++ slashes k)%string)
  /\ (forall k,
        strip_trailing_slashes (s ++ slashes k) = strip_trailing_slashes s)
  /\ strip_trailing_slashes (strip_trailing_slashes s)
     = strip_trailing_slashes s.
Proof.
  destruct (strip_decomposes s) as [Hend [j Hj]].
  split; [exact Hend|]. split; [exists j; exact Hj|]. split.
  - intros k. rewrite Hj at 1.
    rewrite append_assoc, slashes_app. apply strip_unslashed. exact Hend.
  - pose proof (@strip_unslashed (strip_trailing_slashes s) 0 Hend) as H0.
    cbn [slashes] in H0. rewrite append_empty_r in H0. exact H0.
Qed.

Lemma strip_append_slashes (s : string) (k : nat) :
  strip_trailing_slashes (s ++ slashes k) = strip_trailing_slashes s.
Proof.
  destruct (strip_decomposes s) as [Hend [j Hj]].
  rewrite Hj at 1. rewrite append_assoc, slashes_app.
  apply strip_unslashed. exact Hend.
Qed.

(** X2: slashes at the end of the base URL do not matter: a validation
    with the base URL followed by any number of slashes sends the same
    request and ends the same way; and a base URL made of slashes only (or
    empty) is not replaced by the default, the request goes to the
    relative address [/projectId/validate]. *)
Theorem base_url_trailing_slashes (pid key : string) (msgs : list BaseMessage)
    (text : string) (tgt : ValidationTarget) (base : string) (k : nat)
    (n : nat) :
  run (validateWithGuardrails pid key msgs text tgt
         (Some (base ++ slashes k)%string)) n
  = run (validateWithGuardrails pid key msgs text tgt (Some base)) n
  /\ req_url (validation_request pid key msgs text tgt (Some base))
     = (strip_trailing_slashes base ++ "/" ++ pid ++ "/validate")%string
  /\ req_url (validation_request pid key msgs text tgt (Some (slashes k)))
     = ("/" ++ pid ++ "/validate")%string.
Proof.
  split; [|split].
  - unfold validateWithGuardrails, validation_request. cbn [with_default].
    rewrite strip_append_slashes. reflexivity.
  - reflexivity.
  - unfold validation_request. cbn [with_default req_url].
    rewrite strip_slashes_only. reflexivity.
Qed.

(** *** The schema, read back *)



(** *** Every way a single-turn call can go *)

Lemma invoke_run (g : Guarded) (input : Input) (options : CallOptions)
    (n : nat) :
  run (guarded_invoke g input options) n =
  match convertInputToChatMessages input with
  | Throw e => (Throw e, [], n)
  | Return msgs =>
      match prompt_verdict g msgs n with
      | Throw e => (Throw e, [EvFetch (prompt_request g msgs)], S n)
      | Return r =>
          if is_blocking (action r) then
            (Return (new_AIMessage
                       (or_default (revised_response r) PROMPT_OVERRIDE)),
             [EvFetch (prompt_request g msgs)], S n)
          else
            match orig_invoke (target g) input options with
            | Return result =>
                (match response_verdict g msgs (msg_content result) (S n) with
                 | Return r2 =>
                     Return (if is_blocking (action r2)
                             then new_AIMessage
                                    (or_default (revised_response r2)
                                       RESPONSE_OVERRIDE)
                             else result)
                 | Throw e => caught e
                 end,
                 [EvFetch (prompt_request g msgs);
                  EvInvoke (target g) input options;
                  EvFetch (response_request g msgs (msg_content result))],
                 S (S n))
            | Throw e =>
                (caught e,
                 [EvFetch (prompt_request g msgs);
                  EvInvoke (target g) input options],
                 S n)
            end
      end
  end.
Proof.
  destruct (convertInputToChatMessages input) as [msgs|e] eqn:Hmsgs.
  2:{ unfold guarded_invoke, extractMessages. run_step. rewrite Hmsgs.
      reflexivity. }
  destruct (prompt_verdict g msgs n) as [r|e] eqn:Hverdict.
  2:{ unfold guarded_invoke, extractMessages. run_step. rewrite Hmsgs.
      run_step. rewrite run_PROMPT_CONDITION, Hverdict. reflexivity. }
  destruct (is_blocking (action r)) eqn:Hblock.
  - apply (@invoke_prompt_block g input options n msgs r Hmsgs Hverdict Hblock).
  - apply (@invoke_prompt_pass g input options n msgs r Hmsgs Hverdict Hblock).
Qed.

(** X4: a guarded single-turn call fails closed.  It sends at most two
    validation requests and calls the wrapped model at most once, and only
    after the prompt check came back with passthrough; when the input
    cannot be converted it throws before any request, and when the prompt
    check throws (service down, malformed reply) it throws that error,
    whatever its code, without calling the model. *)
Theorem invoke_fails_closed (g : Guarded) (input : Input)
    (options : CallOptions) (n : nat) :
  let out := run (guarded_invoke g input options) n in
  (length (requests (trace_of out)) <= 2)%nat
  /\ (length (model_calls (trace_of out)) <= 1)%nat
  /\ (model_calls (trace_of out) <> [] ->
      exists msgs r,
        convertInputToChatMessages input = Return msgs
        /\ prompt_verdict g msgs n = Return r
        /\ action r = passthrough)
  /\ (forall e,
        convertInputToChatMessages input = Throw e ->
        out = (Throw e, [], n))
  /\ (forall msgs e,
        convertInputToChatMessages input = Return msgs ->
        prompt_verdict g msgs n = Throw e ->
        out = (Throw e, [EvFetch (prompt_request g msgs)], S n)).
Proof.
  intros out. subst out. rewrite invoke_run.
  destruct (convertInputToChatMessages input) as [msgs|e].
  2:{ cbn. repeat split; try lia.
      - intros H; contradiction.
      - intros e' H. congruence.
      - intros msgs e' H. discriminate. }
  destruct (prompt_verdict g msgs n) as [r|e] eqn:Hv.
  2:{ cbn. repeat split; try lia.
      - intros H; contradiction.
      - intros e' H. discriminate.
      - intros msgs' e' H1 H2. injection H1 as <-. congruence. }
  destruct (is_blocking (action r)) eqn:Hblock.
  { cbn. repeat split; try lia.
    - intros H; contradiction.
    - intros e' H. discriminate.
    - intros msgs' e' H1 H2. injection H1 as <-. congruence. }
  assert (Hpass : action r = passthrough)
    by (destruct (action r); try discriminate; reflexivity).
  destruct (orig_invoke (target g) input options) as [result|e];
    cbn; repeat split; try lia.
  all: try (intros _; exists msgs, r; repeat split; (assumption || reflexivity)).
  all: try (intros e' H; discriminate).
  all: intros msgs' e' H1 H2; injection H1 as <-; congruence.
Qed.

(** X5: the handler of the single-turn call also covers the response
    check.  When the model has answered and the response check throws, the
    answer is not returned: the error is thrown on as it is (a transport
    failure, a schema error) unless it bears the content-filter code, in
    which case the apology is returned; the model was called once. *)
Theorem invoke_response_check_error (g : Guarded) (input : Input)
    (options : CallOptions) (n : nat) (msgs : list BaseMessage)
    (r : GuardrailsResponse) (X : AIMessage) (e : Exn) :
  convertInputToChatMessages input = Return msgs ->
  prompt_verdict g msgs n = Return r ->
  is_blocking (action r) = false ->
  orig_invoke (target g) input options = Return X ->
  response_verdict g msgs (msg_content X) (S n) = Throw e ->
  let out := run (guarded_invoke g input options) n in
  model_calls (trace_of out) = [EvInvoke (target g) input options]
  /\ (is_content_filter e = false -> result_of out = Throw e)
  /\ (is_content_filter e = true ->
      result_of out
      = Return (new_AIMessage "I'm sorry, but I can't assist with that request."))
  /\ (forall message, e = JsError message None -> result_of out = Throw e)
  /\ (forall issues, e = ZodError issues -> result_of out = Throw e).
Proof.
  intros Hmsgs Hverdict Hpass HX He out. subst out.
  rewrite invoke_run, Hmsgs, Hverdict, Hpass, HX, He.
  unfold caught, result_of, trace_of. cbn [fst snd].
  split; [reflexivity|]. split; [intros ->; reflexivity|].
  split; [intros ->; reflexivity|].
  split; [intros message ->; reflexivity|intros issues ->; reflexivity].
Qed.

(** X6: the apology that replaces a content-filter rejection of the model
    is returned as it is: no response check is sent for it, the prompt
    check is the only request of the call. *)
Theorem invoke_apology_unchecked (g : Guarded) (input : Input)
    (options : CallOptions) (n : nat) (msgs : list BaseMessage)
    (r : GuardrailsResponse) (e : Exn) :
  convertInputToChatMessages input = Return msgs ->
  prompt_verdict g msgs n = Return r ->
  is_blocking (action r) = false ->
  orig_invoke (target g) input options = Throw e ->
  is_content_filter e = true ->
  run (guarded_invoke g input options) n
  = (Return (new_AIMessage "I'm sorry, but I can't assist with that request."),
     [EvFetch (prompt_request g msgs); EvInvoke (target g) input options],
     S n)
  /\ requests (trace_of (run (guarded_invoke g input options) n))
     = [prompt_request g msgs].
Proof.
  intros Hmsgs Hverdict Hpass He Hcf.
  rewrite invoke_run, Hmsgs, Hverdict, Hpass, He.
  unfold caught. rewrite Hcf. split; reflexivity.
Qed.

(** *** Every way a streaming call can start *)

Lemma stream_run (g : Guarded) (input : Input) (options : CallOptions)
    (n : nat) :
  run (guarded_stream g input options) n =
  match convertInputToChatMessages input with
  | Throw e => (Throw e, [], n)
  | Return msgs =>
      match prompt_verdict g msgs n with
      | Throw e => (Throw e, [EvFetch (prompt_request g msgs)], S n)
      | Return r =>
          if is_blocking (action r) then
            (Return tt,
             [EvFetch (prompt_request g msgs);
              EvYield (new_AIMessageChunk
                         (or_default (revised_response r) PROMPT_OVERRIDE))],
             S n)
          else
            match orig_stream (target g) input options with
            | Throw e =>
                (Throw e,
                 [EvFetch (prompt_request g msgs);
                  EvStream (target g) input options],
                 S n)
            | Return src =>
                prepend [EvFetch (prompt_request g msgs);
                         EvStream (target g) input options]
                  (match run (stream_loop g msgs (src_chunks src)
                                (src_failure src) loop_start) (S n) with
                   | (Return st, evs, m) =>
                       prepend evs (run (tail_check g msgs st) m)
                   | (Throw e, evs, m) => (Throw e, evs, m)
                   end)
            end
      end
  end.
Proof.
  destruct (convertInputToChatMessages input) as [msgs|e] eqn:Hmsgs.
  2:{ unfold guarded_stream, extractMessages. run_step. rewrite Hmsgs.
      reflexivity. }
  destruct (prompt_verdict g msgs n) as [r|e] eqn:Hverdict.
  2:{ unfold guarded_stream, extractMessages. run_step. rewrite Hmsgs.
      run_step. rewrite run_PROMPT_CONDITION, Hverdict. reflexivity. }
  destruct (is_blocking (action r)) eqn:Hblock.
  { apply (@stream_prompt_block g input options n msgs r Hmsgs Hverdict Hblock). }
  destruct (orig_stream (target g) input options) as [src|e] eqn:Hsrc.
  - apply (@stream_prompt_pass g input options n msgs r src Hmsgs Hverdict
             Hblock Hsrc).
  - unfold guarded_stream, extractMessages. run_step. rewrite Hmsgs.
    run_step. rewrite run_PROMPT_CONDITION, Hverdict.
    cbn [check_of shouldBlock]. cbn beta iota. rewrite Hblock.
    run_step. rewrite Hsrc. reflexivity.
Qed.

(** The loop and the check after it call no method of the model, and
    yield nothing when they take nothing. *)
Lemma loop_model_calls (g : Guarded) (msgs : list BaseMessage)
    (pending : list AIMessageChunk) (failure : option Exn) :
  forall (st : LoopState) (m : nat),
    model_calls (trace_of (run (stream_loop g msgs pending failure st) m)) = [].
Proof.
  induction pending as [|c rest IH]; intros st m.
  - cbn [stream_loop]. destruct failure; run_step; reflexivity.
  - cbn [stream_loop]. run_step.
    destruct (rem_is_zero _ _).
    + unfold closing. run_step. rewrite run_RESPONSE_CONDITION.
      destruct (response_verdict _ _ _ _) as [r2|e];
        cbn [check_of shouldBlock overrideResponse]; cbn beta iota.
      * destruct (is_blocking (action r2)); run_step; [reflexivity|].
        specialize (IH (take_in st c) (S m)).
        destruct (run _ _) as [[o evs] m']. cbn in *. exact IH.
      * run_step. reflexivity.
    + run_step. specialize (IH (take_in st c) m).
      destruct (run _ _) as [[o evs] m']. cbn in *. exact IH.
Qed.

Lemma tail_model_calls (g : Guarded) (msgs : list BaseMessage)
    (st : LoopState) (m : nat) :
  model_calls (trace_of (run (tail_check g msgs st) m)) = [].
Proof.
  rewrite run_tail_check. destruct (tail_due g st); [|reflexivity].
  unfold trace_of. cbn [fst snd model_calls].
  destruct (response_verdict _ _ _ _) as [r|e]; [|reflexivity].
  cbn [override_events]. destruct (is_blocking (action r)); reflexivity.
Qed.

(** X7: a guarded stream fails closed, and converts no error.  The wrapped
    [stream] is called at most once, and only after the prompt check came
    back with passthrough; an input that cannot be converted, a prompt
    check that throws and a wrapped [stream] that throws each end the
    stream with that error, whatever its code (there is no apology on this
    path), before any chunk is yielded. *)
Theorem stream_fails_closed (g : Guarded) (input : Input)
    (options : CallOptions) (n : nat) :
  let out := run (guarded_stream g input options) n in
  (length (model_calls (trace_of out)) <= 1)%nat
  /\ (model_calls (trace_of out) <> [] ->
      exists msgs r,
        convertInputToChatMessages input = Return msgs
        /\ prompt_verdict g msgs n = Return r
        /\ action r = passthrough)
  /\ (forall e,
        convertInputToChatMessages input = Throw e ->
        out = (Throw e, [], n))
  /\ (forall msgs e,
        convertInputToChatMessages input = Return msgs ->
        prompt_verdict g msgs n = Throw e ->
        out = (Throw e, [EvFetch (prompt_request g msgs)], S n))
  /\ (forall msgs r e,
        convertInputToChatMessages input = Return msgs ->
        prompt_verdict g msgs n = Return r ->
        is_blocking (action r) = false ->
        orig_stream (target g) input options = Throw e ->
        out = (Throw e,
               [EvFetch (prompt_request g msgs);
                EvStream (target g) input options], S n)).
Proof.
  intros out. subst out. rewrite stream_run.
  destruct (convertInputToChatMessages input) as [msgs|e].
  2:{ cbn. repeat split; try lia.
      - intros H; contradiction.
      - intros e' H. congruence.
      - intros msgs e' H. discriminate.
      - intros msgs r e' H. discriminate. }
  destruct (prompt_verdict g msgs n) as [r|e] eqn:Hv.
  2:{ cbn. repeat split; try lia.
      - intros H; contradiction.
      - intros e' H. discriminate.
      - intros msgs' e' H1 H2. injection H1 as <-. congruence.
      - intros msgs' r' e' H1 H2. injection H1 as <-. congruence. }
  destruct (is_blocking (action r)) eqn:Hblock.
  { cbn. repeat split; try lia.
    - intros H; contradiction.
    - intros e' H. discriminate.
    - intros msgs' e' H1 H2. injection H1 as <-. congruence.
    - intros msgs' r' e' H1 H2 H3. injection H1 as <-. congruence. }
  assert (Hpass : action r = passthrough)
    by (destruct (action r); try discriminate; reflexivity).
  assert (Hcalls :
    match orig_stream (target g) input options with
    | Throw e =>
        model_calls [EvFetch (prompt_request g msgs);
                     EvStream (target g) input options]
    | Return src =>
        model_calls
          (trace_of
             (prepend [EvFetch (prompt_request g msgs);
                       EvStream (target g) input options]
                (match run (stream_loop g msgs (src_chunks src)
                              (src_failure src) loop_start) (S n) with
                 | (Return st, evs, m) =>
                     prepend evs (run (tail_check g msgs st) m)
                 | (Throw e, evs, m) => (Throw e, evs, m)
                 end)))
    end = [EvStream (target g) input options]).
  { destruct (orig_stream (target g) input options) as [src|e]; [|reflexivity].
    pose proof (@loop_model_calls g msgs (src_chunks src) (src_failure src)
                  loop_start (S n)) as Hloop.
    destruct (run (stream_loop _ _ _ _ _) _) as [[[st|e] evs] m].
    - pose proof (@tail_model_calls g msgs st m) as Htail.
      destruct (run (tail_check g msgs st) m) as [[o evs'] m'].
      unfold prepend, trace_of in *. cbn [fst snd] in *.
      cbn [app model_calls]. rewrite model_calls_app, Hloop, Htail. reflexivity.
    - unfold prepend, trace_of in *. cbn [fst snd] in *.
      cbn [app model_calls]. rewrite Hloop. reflexivity. }
  destruct (orig_stream (target g) input options) as [src|e] eqn:Hsrc.
  - rewrite Hcalls. cbn [length]. repeat split; try lia.
    + intros _. exists msgs, r. repeat split; (assumption || reflexivity).
    + intros e' H. discriminate.
    + intros msgs' e' H1 H2. injection H1 as <-. congruence.
    + intros msgs' r' e' H1 H2 H3 H4. discriminate.
  - cbn. repeat split; try lia.
    + intros _. exists msgs, r. repeat split; (assumption || reflexivity).
    + intros e' H. discriminate.
    + intros msgs' e' H1 H2. injection H1 as <-. congruence.
    + intros msgs' r' e' H1 H2 H3 H4. congruence.
Qed.

(** *** What a guarded stream can yield *)

(** The loop yields the fragments it takes, in order; the last one taken
    is replaced by one override chunk when its check blocks, and is not
    yielded when its check throws. *)
Lemma loop_shape (g : Guarded) (msgs : list BaseMessage)
    (pending : list AIMessageChunk) (failure : option Exn) :
  forall (st : LoopState) (m : nat),
    match run (stream_loop g msgs pending failure st) m with
    | (Return st', evs, _) =>
        (consumed evs = pending /\ yielded evs = pending)
        \/ (exists k s,
              (k < length pending)%nat
              /\ consumed evs = firstn (S k) pending
              /\ yielded evs = firstn k pending ++ [new_AIMessageChunk s]
              /\ rem_is_zero (chunkCount st') (g_chunkBatchSize g) = true)
    | (Throw _, evs, _) =>
        exists j k,
          (j <= k <= j + 1)%nat /\ (k <= length pending)%nat
          /\ consumed evs = firstn k pending
          /\ yielded evs = firstn j pending
    end.
Proof.
  induction pending as [|c rest IH]; intros st m.
  - cbn [stream_loop]. destruct failure; run_step; cbn.
    + exists 0%nat, 0%nat. repeat split; lia.
    + left. split; reflexivity.
  - assert (Hstep : forall m',
      match run (stream_loop g msgs rest failure (take_in st c)) m' with
      | (Return st', evs, _) =>
          (consumed (EvNext (Some c) :: EvYield c :: evs) = c :: rest
           /\ yielded (EvNext (Some c) :: EvYield c :: evs) = c :: rest)
          \/ (exists k s,
                (k < length (c :: rest))%nat
                /\ consumed (EvNext (Some c) :: EvYield c :: evs)
                   = firstn (S k) (c :: rest)
                /\ yielded (EvNext (Some c) :: EvYield c :: evs)
                   = firstn k (c :: rest) ++ [new_AIMessageChunk s]
                /\ rem_is_zero (chunkCount st') (g_chunkBatchSize g) = true)
      | (Throw _, evs, _) =>
          exists j k,
            (j <= k <= j + 1)%nat /\ (k <= length (c :: rest))%nat
            /\ consumed (EvNext (Some c) :: EvYield c :: evs)
               = firstn k (c :: rest)
            /\ yielded (EvNext (Some c) :: EvYield c :: evs)
               = firstn j (c :: rest)
      end).
    { intros m'. specialize (IH (take_in st c) m').
      destruct (run _ _) as [[[st'|e] evs] m''];
        cbn [consumed yielded length firstn].
      - destruct IH as [[Hc Hy]|[k [s [Hk [Hc [Hy Hz]]]]]].
        + left. rewrite Hc, Hy. split; reflexivity.
        + right. exists (S k), s. rewrite Hc, Hy. cbn [firstn app].
          repeat split; (lia || assumption).
      - destruct IH as [j [k [Hjk [Hk [Hc Hy]]]]].
        exists (S j), (S k). rewrite Hc, Hy. cbn [firstn].
        repeat split; lia. }
    cbn [stream_loop]. run_step.
    destruct (rem_is_zero _ _) eqn:Hz.
    + unfold closing. run_step. rewrite run_RESPONSE_CONDITION.
      cbn [msg_content new_AIMessage].
      destruct (response_verdict _ _ _ _) as [r2|e];
        cbn [check_of shouldBlock overrideResponse]; cbn beta iota.
      * destruct (is_blocking (action r2)); run_step.
        -- cbn [app consumed yielded]. right.
           exists 0%nat, (or_default (revised_response r2) RESPONSE_OVERRIDE).
           cbn [length firstn app]. repeat split; (lia || assumption).
        -- specialize (Hstep (S m)).
           destruct (run _ _) as [[[st'|e] evs] m'];
             cbn [app consumed yielded] in *; exact Hstep.
      * run_step. cbn [app consumed yielded].
        exists 0%nat, 1%nat. cbn [length firstn]. repeat split; lia.
    + run_step. specialize (Hstep m).
      destruct (run _ _) as [[[st'|e] evs] m'];
        cbn [app consumed yielded] in *; exact Hstep.
Qed.

(** X8: whatever the service and the source do, a guarded stream whose
    prompt check passed yields fragments of the source only in their
    order, unchanged, without gap or repetition, followed by at most one
    synthetic chunk, which is last; it has taken from the source exactly
    the fragments it yielded, or one more (the one whose check blocked or
    threw). *)
Theorem stream_yields_prefix (g : Guarded) (input : Input)
    (options : CallOptions) (n : nat) (msgs : list BaseMessage)
    (r : GuardrailsResponse) (src : Source) :
  convertInputToChatMessages input = Return msgs ->
  prompt_verdict g msgs n = Return r ->
  is_blocking (action r) = false ->
  orig_stream (target g) input options = Return src ->
  let tr := trace_of (run (guarded_stream g input options) n) in
  exists j k,
    (j <= k <= j + 1)%nat
    /\ (k <= length (src_chunks src))%nat
    /\ consumed tr = firstn k (src_chunks src)
    /\ (yielded tr = firstn j (src_chunks src)
        \/ exists s,
             yielded tr = firstn j (src_chunks src) ++ [new_AIMessageChunk s]).
Proof.
  intros Hmsgs Hverdict Hpass Hsrc tr. subst tr.
  rewrite stream_run, Hmsgs, Hverdict, Hpass, Hsrc.
  pose proof (@loop_shape g msgs (src_chunks src) (src_failure src)
                loop_start (S n)) as Hloop.
  destruct (run (stream_loop _ _ _ _ _) _) as [[[st'|e] evs] m].
  - rewrite run_tail_check.
    unfold prepend, trace_of, result_of. cbn [fst snd].
    cbn [app consumed yielded].
    destruct Hloop as [[Hc Hy]|[k [s [Hk [Hc [Hy Hz]]]]]].
    + exists (length (src_chunks src)), (length (src_chunks src)).
      rewrite firstn_all.
      split; [lia|]. split; [lia|].
      destruct (tail_due g st'); cbn [fst snd].
      * rewrite consumed_app, yielded_app, Hc, Hy.
        cbn [consumed yielded].
        rewrite (proj1 (tail_events_quiet _)), app_nil_r.
        split; [reflexivity|].
        destruct (response_verdict _ _ _ _) as [r2|e]; cbn [override_events].
        -- destruct (is_blocking (action r2)); cbn [yielded].
           ++ right. eexists. reflexivity.
           ++ left. apply app_nil_r.
        -- left. apply app_nil_r.
      * rewrite !app_nil_r, Hc, Hy. split; [reflexivity|left; reflexivity].
    + unfold tail_due. rewrite Hz.
      exists k, (S k). split; [lia|]. split; [lia|].
      destruct (lastChunk st'); cbn [negb fst snd]; rewrite !app_nil_r, Hc, Hy;
        (split; [reflexivity|right; exists s; reflexivity]).
  - unfold prepend, trace_of, result_of. cbn [fst snd].
    cbn [app consumed yielded].
    destruct Hloop as [j [k [Hjk [Hk [Hc Hy]]]]].
    exists j, k. rewrite Hc, Hy.
    split; [lia|]. split; [lia|]. split; [reflexivity|left; reflexivity].
Qed.

(** *** Failures while streaming *)

(** The loop up to the fragment that completes the [k]-th batch, when the
    checks before it pass. *)
Lemma loop_reach_boundary (g : Guarded) (msgs : list BaseMessage)
    (chunks : list AIMessageChunk) (failure : option Exn) (n b k : nat) :
  g_chunkBatchSize g = Z.of_nat b ->
  (0 < b)%nat ->
  (1 <= k)%nat ->
  (k * b <= length chunks)%nat ->
  (forall j, (1 <= j < k)%nat ->
             passes g msgs (text_of (firstn (j * b) chunks)) (n + j)) ->
  exists c l2 st',
    nth_error chunks (k * b - 1) = Some c
    /\ rem_is_zero (chunkCount st') (g_chunkBatchSize g) = true
    /\ accumulatedContent st' = text_of (firstn (k * b) chunks)
    /\ st' = take_in (state_after (firstn (k * b - 1) chunks)) c
    /\ run (stream_loop g msgs chunks failure loop_start) (S n)
       = prepend (pass_events g msgs loop_start (firstn (k * b - 1) chunks))
           (run (stream_loop g msgs (c :: l2) failure
                   (state_after (firstn (k * b - 1) chunks))) (n + k)).
Proof.
  intros HB Hb Hk HF Hchecks.
  destruct (nth_error chunks (k * b - 1)) as [c|] eqn:Hc.
  2:{ apply nth_error_None in Hc. nia. }
  destruct (nth_error_split _ _ Hc) as [l1 [l2 [Hsplit Hlen]]].
  assert (Hseg : firstn (k * b - 1) chunks = l1).
  { rewrite Hsplit, <- Hlen. apply firstn_app_exact. }
  assert (Hupto : firstn (k * b) chunks = l1 ++ [c]).
  { rewrite Hsplit. change (l1 ++ c :: l2) with (l1 ++ [c] ++ l2).
    rewrite app_assoc.
    replace (k * b)%nat with (length (l1 ++ [c]))
      by (rewrite length_app; cbn [length]; nia).
    apply firstn_app_exact. }
  exists c, l2, (take_in (state_after l1) c).
  rewrite Hseg, Hupto.
  destruct (state_after_spec (l1 ++ [c])) as [Hcount [Htext _]].
  rewrite state_after_snoc in Hcount, Htext.
  split; [reflexivity|]. split.
  { rewrite Hcount, HB, rem_is_zero_nat by exact Hb.
    rewrite length_app. cbn [length].
    replace (length l1 + 1)%nat with (k * b)%nat by nia.
    rewrite Nat.Div0.mod_mul. reflexivity. }
  split; [exact Htext|]. split; [reflexivity|].
  rewrite Hsplit at 1. rewrite loop_segment.
  - rewrite HB, <- Hseg, boundary_texts_prefix by (assumption || lia).
    rewrite length_map, length_seq, pred_mul_div by assumption.
    rewrite Hseg.
    change (fold_left take_in l1 loop_start) with (state_after l1).
    replace (S n + (k - 1))%nat with (n + k)%nat by lia. reflexivity.
  - intros i text Hi. rewrite HB, <- Hseg in Hi.
    rewrite boundary_texts_prefix in Hi by (assumption || lia).
    rewrite pred_mul_div in Hi by assumption.
    apply nth_error_map_seq in Hi. destruct Hi as [Hi ->].
    replace (S n + i)%nat with (n + (1 + i))%nat by lia.
    apply Hchecks. lia.
Qed.

(** X9: when the check at fragment count [k * b] throws (the service is
    down, the reply is malformed), the guarded stream throws that error:
    the consumer has received the first [k * b - 1] fragments and no
    synthetic chunk, the fragment that completed the batch is withheld,
    the source is closed, and nothing is sent or pulled afterwards. *)
Theorem stream_check_throws_at_boundary (g : Guarded) (input : Input)
    (options : CallOptions) (n : nat) (msgs : list BaseMessage)
    (r : GuardrailsResponse) (src : Source) (b k : nat) (e : Exn) :
  g_chunkBatchSize g = Z.of_nat b ->
  (0 < b)%nat ->
  convertInputToChatMessages input = Return msgs ->
  prompt_verdict g msgs n = Return r ->
  is_blocking (action r) = false ->
  orig_stream (target g) input options = Return src ->
  (1 <= k)%nat ->
  (k * b <= length (src_chunks src))%nat ->
  (forall j, (1 <= j < k)%nat ->
             passes g msgs (text_of (firstn (j * b) (src_chunks src))) (n + j)) ->
  response_verdict g msgs (text_of (firstn (k * b) (src_chunks src))) (n + k)
    = Throw e ->
  let out := run (guarded_stream g input options) n in
  result_of out = Throw e
  /\ yielded (trace_of out) = firstn (k * b - 1) (src_chunks src)
  /\ consumed (trace_of out) = firstn (k * b) (src_chunks src)
  /\ exists tr0,
       trace_of out
       = tr0 ++ [EvFetch (response_request g msgs
                            (text_of (firstn (k * b) (src_chunks src))));
                 EvClose].
Proof.
  intros HB Hb Hmsgs Hverdict Hpass Hsrc Hk HF Hchecks He out. subst out.
  destruct (@loop_reach_boundary g msgs (src_chunks src) (src_failure src)
              n b k HB Hb Hk HF Hchecks)
    as [c [l2 [st' [Hc [Hz [Htext [Hst' Hloop]]]]]]].
  rewrite stream_run, Hmsgs, Hverdict, Hpass, Hsrc, Hloop.
  cbn [stream_loop]. run_step. rewrite <- Hst', Hz.
  unfold closing. run_step. rewrite run_RESPONSE_CONDITION.
  cbn [msg_content new_AIMessage]. rewrite Htext, He. run_step.
  unfold prepend, result_of, trace_of. cbn [fst snd].
  split; [reflexivity|]. split; [|split].
  - cbn [app yielded]. rewrite yielded_app, pass_events_yielded.
    cbn [yielded]. apply app_nil_r.
  - cbn [app consumed]. rewrite consumed_app, pass_events_consumed.
    cbn [consumed app].
    replace (k * b)%nat with (S (k * b - 1)) at 2 by nia.
    symmetry. apply firstn_snoc_nth. exact Hc.
  - eexists ([_; _] ++ pass_events g msgs loop_start _ ++ [_]).
    rewrite <- !app_assoc. reflexivity.
Qed.

(** X10: when the source throws after its last fragment and the checks at
    the batch boundaries passed, the guarded stream has yielded all the
    fragments and throws the error of the source as it is, whatever its
    code; no check is sent for the text after the last boundary. *)
Theorem stream_source_throws (g : Guarded) (input : Input)
    (options : CallOptions) (n : nat) (msgs : list BaseMessage)
    (r : GuardrailsResponse) (chunks : list AIMessageChunk) (b : nat)
    (e : Exn) :
  g_chunkBatchSize g = Z.of_nat b ->
  (0 < b)%nat ->
  convertInputToChatMessages input = Return msgs ->
  prompt_verdict g msgs n = Return r ->
  is_blocking (action r) = false ->
  orig_stream (target g) input options = Return (mkSource chunks (Some e)) ->
  (forall j, (1 <= j)%nat -> (j * b <= length chunks)%nat ->
             passes g msgs (text_of (firstn (j * b) chunks)) (n + j)) ->
  let out := run (guarded_stream g input options) n in
  result_of out = Throw e
  /\ yielded (trace_of out) = chunks
  /\ response_checks (trace_of out)
     = map (fun j => text_of (firstn (j * b) chunks))
         (seq 1 (length chunks / b))
  /\ after_exhaustion (trace_of out) = [].
Proof.
  intros HB Hb Hmsgs Hverdict Hpass Hsrc Hchecks out. subst out.
  assert (Hclosed :
    boundary_texts (g_chunkBatchSize g) loop_start chunks
    = map (fun j => text_of (firstn (j * b) chunks))
        (seq 1 (length chunks / b))).
  { rewrite HB. rewrite <- (firstn_all chunks) at 1.
    apply boundary_texts_prefix; [assumption|lia]. }
  assert (Hrun : run (guarded_stream g input options) n =
    (Throw e,
     [EvFetch (prompt_request g msgs); EvStream (target g) input options]
     ++ pass_events g msgs loop_start chunks ++ [EvNextThrow],
     (S n + length chunks / b)%nat)).
  { rewrite stream_run, Hmsgs, Hverdict, Hpass, Hsrc.
    cbn [src_chunks src_failure].
    rewrite <- (app_nil_r chunks) at 1.
    rewrite loop_segment.
    2:{ intros i text Hi. rewrite Hclosed in Hi.
        apply nth_error_map_seq in Hi. destruct Hi as [Hi ->].
        replace (S n + i)%nat with (n + (1 + i))%nat by lia.
        apply Hchecks; [lia|].
        pose proof (Nat.div_mod_eq (length chunks) b). nia. }
    rewrite Hclosed, length_map, length_seq.
    cbn [stream_loop]. run_step. reflexivity. }
  rewrite Hrun. unfold result_of, trace_of. cbn [fst snd].
  split; [reflexivity|]. split; [|split].
  - cbn [app yielded]. rewrite yielded_app, pass_events_yielded.
    cbn [yielded]. apply app_nil_r.
  - rewrite !response_checks_app, pass_events_response_checks, Hclosed.
    cbn. apply app_nil_r.
  - cbn [app after_exhaustion]. rewrite pass_events_after_exhaustion.
    reflexivity.
Qed.

(** *** Batch sizes at the edges *)

Lemma rem_is_zero_small (c B : Z) :
  (0 < c)%Z -> (B = 0 \/ c < Z.abs B)%Z -> rem_is_zero c B = false.
Proof.
  intros Hc HB. destruct (rem_is_zero c B) eqn:Hz; [|reflexivity].
  apply rem_is_zero_divides in Hz. exfalso.
  destruct HB as [->|Hsmall].
  - destruct Hz as [q Hq]. lia.
  - apply Z.divide_abs_l in Hz. apply Z.divide_pos_le in Hz; lia.
Qed.

Lemma rem_is_zero_opp (c B : Z) : rem_is_zero c (- B) = rem_is_zero c B.
Proof.
  unfold rem_is_zero, js_rem.
  destruct (Z.eqb_spec B 0) as [->|HB]; [reflexivity|].
  destruct (Z.eqb_spec (- B) 0) as [E|_]; [lia|].
  rewrite Z.rem_opp_r by exact HB. reflexivity.
Qed.

Lemma no_boundary_texts (B : Z) (seg : list AIMessageChunk) :
  forall st,
    (forall i, (1 <= i <= length seg)%nat ->
               rem_is_zero (chunkCount st + Z.of_nat i) B = false) ->
    boundary_texts B st seg = [].
Proof.
  induction seg as [|c seg IH]; intros st Hno; [reflexivity|].
  cbn [boundary_texts].
  pose proof (Hno 1%nat ltac:(cbn [length]; lia)) as H1.
  cbn [take_in chunkCount]. change (Z.of_nat 1) with 1%Z in H1. rewrite H1.
  apply IH. intros i Hi. cbn [take_in chunkCount].
  replace (chunkCount st + 1 + Z.of_nat i)%Z
    with (chunkCount st + Z.of_nat (S i))%Z by lia.
  apply Hno. cbn [length]. lia.
Qed.

(** X11: with a batch size of zero, or one larger in absolute value than
    the number of fragments, no check interrupts the stream: every
    fragment of a source that completes is yielded as it comes, and the
    only response check is the one after the end, on the whole text, which
    can at most add its override chunk after everything else. *)
Theorem stream_without_boundaries (g : Guarded) (input : Input)
    (options : CallOptions) (n : nat) (msgs : list BaseMessage)
    (r : GuardrailsResponse) (chunks : list AIMessageChunk) :
  convertInputToChatMessages input = Return msgs ->
  prompt_verdict g msgs n = Return r ->
  is_blocking (action r) = false ->
  orig_stream (target g) input options = Return (mkSource chunks None) ->
  chunks <> [] ->
  (g_chunkBatchSize g = 0
   \/ Z.of_nat (length chunks) < Z.abs (g_chunkBatchSize g))%Z ->
  let tr := trace_of (run (guarded_stream g input options) n) in
  consumed tr = chunks
  /\ response_checks tr = [text_of chunks]
  /\ requests tr = [prompt_request g msgs; response_request g msgs (text_of chunks)]
  /\ yielded tr
     = chunks
       ++ yielded (override_events
                     (response_verdict g msgs (text_of chunks) (S n)))
  /\ firstn (length chunks) (yielded tr) = chunks.
Proof.
  intros Hmsgs Hverdict Hpass Hsrc Hne HB tr.
  assert (Hsmall : forall i, (1 <= i <= length chunks)%nat ->
            rem_is_zero (Z.of_nat i) (g_chunkBatchSize g) = false).
  { intros i Hi. apply rem_is_zero_small; lia. }
  assert (Hnone : boundary_texts (g_chunkBatchSize g) loop_start chunks = []).
  { apply no_boundary_texts. intros i Hi. cbn [loop_start chunkCount].
    apply Hsmall. exact Hi. }
  assert (Hrun : run (guarded_stream g input options) n =
    (unit_outcome (response_verdict g msgs (text_of chunks) (S n)),
     [EvFetch (prompt_request g msgs); EvStream (target g) input options]
     ++ pass_events g msgs loop_start chunks
     ++ EvNext None
        :: EvFetch (response_request g msgs (text_of chunks))
        :: override_events (response_verdict g msgs (text_of chunks) (S n)),
     S (S n))).
  { rewrite stream_run, Hmsgs, Hverdict, Hpass, Hsrc.
    cbn [src_chunks src_failure].
    rewrite <- (app_nil_r chunks) at 1.
    rewrite loop_segment.
    2:{ intros i text Hi. rewrite Hnone in Hi. destruct i; discriminate. }
    rewrite Hnone. cbn [length]. rewrite Nat.add_0_r.
    cbn [stream_loop]. run_step.
    change (fold_left take_in chunks loop_start) with (state_after chunks).
    unfold prepend at 2. cbn [result_of trace_of fst snd]. cbn beta iota.
    rewrite run_tail_check.
    destruct (state_after_spec chunks) as [Hc [Ht Hl]].
    assert (Hdue : tail_due g (state_after chunks) = true).
    { unfold tail_due.
      destruct (lastChunk (state_after chunks)) as [c|] eqn:Hlc.
      - rewrite Hc, Hsmall; [reflexivity|].
        destruct chunks; [contradiction|cbn [length]; lia].
      - exfalso. apply Hne. apply Hl. reflexivity. }
    rewrite Hdue, Ht.
    unfold prepend, result_of, trace_of. cbn [fst snd].
    rewrite <- app_assoc. reflexivity. }
  assert (Hy : yielded tr
     = chunks
       ++ yielded (override_events
                     (response_verdict g msgs (text_of chunks) (S n)))).
  { subst tr. rewrite Hrun. unfold trace_of. cbn [fst snd].
    cbn [app yielded]. rewrite yielded_app, pass_events_yielded. reflexivity. }
  subst tr. rewrite Hy. rewrite Hrun. unfold trace_of. cbn [fst snd].
  split; [|split; [|split; [|split]]].
  - cbn [app consumed]. rewrite consumed_app, pass_events_consumed.
    cbn [consumed]. rewrite (proj1 (tail_events_quiet _)). apply app_nil_r.
  - rewrite !response_checks_app, pass_events_response_checks, Hnone.
    cbn [app]. unfold response_checks at 2. cbn [requests filter].
    change (is_response_request (response_request g msgs (text_of chunks)))
      with true. cbn beta iota. cbn [map].
    rewrite response_request_payload.
    fold (response_checks
            (override_events (response_verdict g msgs (text_of chunks) (S n)))).
    rewrite (proj1 (proj2 (tail_events_quiet _))). reflexivity.
  - cbn [app requests]. rewrite requests_app. cbn [requests].
    assert (Hreq : forall st seg,
              boundary_texts (g_chunkBatchSize g) st seg = [] ->
              requests (pass_events g msgs st seg) = []).
    { intros st seg. revert st.
      induction seg as [|c seg IH]; intros st Hb; [reflexivity|].
      cbn [boundary_texts pass_events] in *.
      destruct (rem_is_zero _ _); [discriminate|].
      cbn [app requests]. apply IH. exact Hb. }
    rewrite (Hreq _ _ Hnone). cbn [app]. do 2 f_equal.
    destruct (response_verdict _ _ _ _) as [r2|e]; cbn [override_events];
      [destruct (is_blocking (action r2))|]; reflexivity.
  - reflexivity.
  - rewrite firstn_app, firstn_all, Nat.sub_diag. cbn [firstn].
    apply app_nil_r.
Qed.

(** The loop does the same with a batch size and with its opposite. *)
Lemma loop_batch_sign (g : Guarded) (msgs : list BaseMessage)
    (pending : list AIMessageChunk) (failure : option Exn) :
  forall (st : LoopState) (m : nat),
    run (stream_loop (with_batch_size g (- g_chunkBatchSize g)) msgs pending
           failure st) m
    = run (stream_loop g msgs pending failure st) m.
Proof.
  induction pending as [|c rest IH]; intros st m; [reflexivity|].
  cbn [stream_loop]. run_step.
  cbn [with_batch_size g_chunkBatchSize]. rewrite rem_is_zero_opp.
  destruct (rem_is_zero _ _).
  - unfold closing. run_step. rewrite !run_RESPONSE_CONDITION.
    change (response_verdict (with_batch_size g (- g_chunkBatchSize g)))
      with (response_verdict g).
    change (response_request (with_batch_size g (- g_chunkBatchSize g)))
      with (response_request g).
    destruct (response_verdict _ _ _ _) as [r2|e];
      cbn [check_of shouldBlock overrideResponse]; cbn beta iota.
    + destruct (is_blocking (action r2)); run_step; [reflexivity|].
      rewrite IH. reflexivity.
    + run_step. reflexivity.
  - run_step. rewrite IH. reflexivity.
Qed.

(** X12: the sign of the batch size does not matter: a model guarded with
    batch size [-B] streams exactly as the one guarded with [B] does, event
    for event. *)
Theorem stream_batch_size_sign (m : Model) (pid key : string) (B : Z)
    (base : option string) (input : Input) (options : CallOptions) (n : nat) :
  run (guarded_stream (withGuardrails m (mkConfig pid key (Some (- B)%Z) base))
         input options) n
  = run (guarded_stream (withGuardrails m (mkConfig pid key (Some B) base))
           input options) n.
Proof.
  set (g := withGuardrails m (mkConfig pid key (Some B) base)).
  change (withGuardrails m (mkConfig pid key (Some (- B)%Z) base))
    with (with_batch_size g (- g_chunkBatchSize g)).
  rewrite !stream_run.
  change (prompt_verdict (with_batch_size g (- g_chunkBatchSize g)))
    with (prompt_verdict g).
  change (prompt_request (with_batch_size g (- g_chunkBatchSize g)))
    with (prompt_request g).
  change (target (with_batch_size g (- g_chunkBatchSize g))) with (target g).
  destruct (convertInputToChatMessages input) as [msgs|e]; [|reflexivity].
  destruct (prompt_verdict g msgs n) as [r|e]; [|reflexivity].
  destruct (is_blocking (action r)); [reflexivity|].
  destruct (orig_stream (target g) input options) as [src|e]; [|reflexivity].
  rewrite loop_batch_sign.
  destruct (run (stream_loop _ _ _ _ _) _) as [[[st|e] evs] m']; [|reflexivity].
  rewrite !run_tail_check.
  change (response_verdict (with_batch_size g (- g_chunkBatchSize g)))
    with (response_verdict g).
  change (response_request (with_batch_size g (- g_chunkBatchSize g)))
    with (response_request g).
  unfold tail_due. cbn [with_batch_size g_chunkBatchSize].
  rewrite rem_is_zero_opp. reflexivity.
Qed.

(** *** Where requests go *)

Lemma requests_bound (g : Guarded) (msgs : list BaseMessage) (text : string) :
  bound_for g msgs (prompt_request g msgs)
  /\ bound_for g msgs (response_request g msgs text).
Proof. split; repeat split. Qed.

Lemma loop_requests (g : Guarded) (msgs : list BaseMessage)
    (pending : list AIMessageChunk) (failure : option Exn) :
  forall (st : LoopState) (m : nat),
    requests (trace_of (run (stream_loop g msgs pending failure st) m))
    = map (response_request g msgs)
        (response_checks
           (trace_of (run (stream_loop g msgs pending failure st) m))).
Proof.
  induction pending as [|c rest IH]; intros st m.
  - cbn [stream_loop]. destruct failure; run_step; reflexivity.
  - cbn [stream_loop]. run_step.
    destruct (rem_is_zero _ _).
    + unfold closing. run_step. rewrite run_RESPONSE_CONDITION.
      cbn [msg_content new_AIMessage].
      destruct (response_verdict _ _ _ _) as [r2|e];
        cbn [check_of shouldBlock overrideResponse]; cbn beta iota.
      * destruct (is_blocking (action r2)); run_step; [reflexivity|].
        specialize (IH (take_in st c) (S m)).
        destruct (run _ _) as [[o evs] m'].
        unfold trace_of, response_checks in *. cbn [fst snd] in *.
        cbn [app requests filter].
        change (is_response_request
                  (response_request g msgs (accumulatedContent (take_in st c))))
          with true. cbn beta iota. cbn [map].
        rewrite response_request_payload. f_equal. exact IH.
      * run_step. reflexivity.
    + run_step. specialize (IH (take_in st c) m).
      destruct (run _ _) as [[o evs] m'].
      unfold trace_of, response_checks in *. cbn [fst snd] in *.
      cbn [app requests]. exact IH.
Qed.

Lemma tail_requests (g : Guarded) (msgs : list BaseMessage) (st : LoopState)
    (m : nat) :
  requests (trace_of (run (tail_check g msgs st) m))
  = map (response_request g msgs)
      (response_checks (trace_of (run (tail_check g msgs st) m))).
Proof.
  rewrite run_tail_check. destruct (tail_due g st); [|reflexivity].
  unfold trace_of, response_checks. cbn [fst snd requests filter].
  change (is_response_request (response_request g msgs (accumulatedContent st)))
    with true. cbn beta iota. cbn [map].
  rewrite response_request_payload.
  destruct (response_verdict _ _ _ _) as [r|e]; cbn [override_events];
    [destruct (is_blocking (action r))|]; reflexivity.
Qed.

(** X13: every request of a guarded call or stream is bound for the same
    place: the first is the prompt check, with an empty response text, the
    others are response checks, and all of them go to
    [base/projectId/validate] (the base URL without its slashes at the
    end) with the API key of the configuration and carry the converted
    messages of the prompt, whatever text is being checked. *)
Theorem requests_all_bound (g : Guarded) (input : Input)
    (options : CallOptions) (n : nat) (msgs : list BaseMessage) :
  convertInputToChatMessages input = Return msgs ->
  let call := trace_of (run (guarded_invoke g input options) n) in
  let stream := trace_of (run (guarded_stream g input options) n) in
  requests call
    = prompt_request g msgs
      :: map (response_request g msgs) (response_checks call)
  /\ requests stream
     = prompt_request g msgs
       :: map (response_request g msgs) (response_checks stream)
  /\ Forall (bound_for g msgs) (requests call)
  /\ Forall (bound_for g msgs) (requests stream)
  /\ payload_response (req_body (prompt_request g msgs)) = EmptyString
  /\ payload_validation_target (req_body (prompt_request g msgs))
     = target_prompt.
Proof.
  intros Hmsgs call stream.
  assert (Hcall : requests call
    = prompt_request g msgs
      :: map (response_request g msgs) (response_checks call)).
  { subst call. rewrite invoke_run, Hmsgs.
    destruct (prompt_verdict g msgs n) as [r|e]; [|reflexivity].
    destruct (is_blocking (action r)); [reflexivity|].
    destruct (orig_invoke (target g) input options); reflexivity. }
  assert (Hstream : requests stream
    = prompt_request g msgs
      :: map (response_request g msgs) (response_checks stream)).
  { subst stream. rewrite stream_run, Hmsgs.
    destruct (prompt_verdict g msgs n) as [r|e]; [|reflexivity].
    destruct (is_blocking (action r)); [reflexivity|].
    destruct (orig_stream (target g) input options) as [src|e]; [|reflexivity].
    pose proof (@loop_requests g msgs (src_chunks src) (src_failure src)
                  loop_start (S n)) as Hloop.
    destruct (run (stream_loop _ _ _ _ _) _) as [[[st|e] evs] m].
    - pose proof (@tail_requests g msgs st m) as Htail.
      destruct (run (tail_check g msgs st) m) as [[o evs'] m'].
      unfold prepend, trace_of, result_of in *. cbn [fst snd] in *.
      cbn [app requests]. unfold response_checks in *.
      cbn [requests filter]. change (is_response_request (prompt_request g msgs))
        with false. cbn beta iota.
      f_equal. rewrite requests_app, filter_app, !map_app.
      f_equal; assumption.
    - unfold prepend, trace_of, result_of in *. cbn [fst snd] in *.
      cbn [app requests]. unfold response_checks in *.
      cbn [requests filter]. change (is_response_request (prompt_request g msgs))
        with false. cbn beta iota. f_equal. exact Hloop. }
  split; [exact Hcall|]. split; [exact Hstream|].
  split; [|split; [|split; reflexivity]].
  - rewrite Hcall. constructor; [apply (requests_bound g msgs EmptyString)|].
    apply Forall_map. apply Forall_forall. intros text _.
    apply (requests_bound g msgs text).
  - rewrite Hstream. constructor; [apply (requests_bound g msgs EmptyString)|].
    apply Forall_map. apply Forall_forall. intros text _.
    apply (requests_bound g msgs text).
Qed.

(** *** Chains of derived models *)

Lemma run_reconfigure (c : AporiaGuardrailsConfig)
    (cfgs : list RunnableConfig) :
  forall (m : Model) (n : nat),
    result_of (run (reconfigure (withGuardrails m c) cfgs) n)
    = match orig_reconfigure m cfgs with
      | Return m' => Return (withGuardrails m' c)
      | Throw e => Throw e
      end
    /\ snd (run (reconfigure (withGuardrails m c) cfgs) n) = n
    /\ requests (trace_of (run (reconfigure (withGuardrails m c) cfgs) n)) = []
    /\ model_calls (trace_of (run (reconfigure (withGuardrails m c) cfgs) n))
       = [].
Proof.
  induction cfgs as [|cfg rest IH]; intros m n.
  - cbn [reconfigure orig_reconfigure]. run_step. repeat split.
  - cbn [reconfigure orig_reconfigure]. unfold guarded_withConfig.
    run_step. change (target (withGuardrails m c)) with m.
    destruct (orig_withConfig m cfg) as [m'|e]; cbn beta iota.
    + run_step.
      rewrite rewrap_same_config.
      destruct (IH m' n) as [Hres [Hn [Hreq Hcalls]]].
      destruct (run (reconfigure (withGuardrails m' c) rest) n)
        as [[o evs] n'].
      unfold result_of, trace_of in *. cbn [fst snd] in *.
      cbn [app requests model_calls]. repeat split; assumption.
    + repeat split.
Qed.

(** X14: reconfiguring a guarded model any number of times in a row gives
    the guard of what the same reconfigurations give on the wrapped model,
    with the configuration of the first wrap, and the error of the wrapped
    model if one of them throws; deriving models sends no validation
    request and calls neither [invoke] nor [stream]. *)
Theorem reconfigure_keeps_guard (m : Model) (c : AporiaGuardrailsConfig)
    (cfgs : list RunnableConfig) (n : nat) :
  let out := run (reconfigure (withGuardrails m c) cfgs) n in
  result_of out
  = match orig_reconfigure m cfgs with
    | Return m' => Return (withGuardrails m' c)
    | Throw e => Throw e
    end
  /\ snd out = n
  /\ requests (trace_of out) = []
  /\ model_calls (trace_of out) = []
  /\ forall g',
       result_of out = Return g' ->
       g_projectId g' = projectId c
       /\ g_apiKey g' = apiKey c
       /\ g_chunkBatchSize g' = with_default (chunkBatchSize c) 200%Z
       /\ g_baseUrl g' = with_default (baseUrl c) "https://gr-prd.aporia.com".
Proof.
  intros out. subst out.
  destruct (run_reconfigure c cfgs m n) as [Hres [Hn [Hreq Hcalls]]].
  split; [exact Hres|]. split; [exact Hn|]. split; [exact Hreq|].
  split; [exact Hcalls|].
  intros g' Hg'. rewrite Hres in Hg'.
  destruct (orig_reconfigure m cfgs) as [m'|e]; [|discriminate].
  injection Hg' as <-. repeat split.
Qed.


(** *** What the consumer of a stream assembles *)

Lemma streamed_content_text (tr : list Event) :
  streamed_content tr = text_of (yielded tr).
Proof. reflexivity. Qed.

(** X16: a response blocked in mid-stream is not taken back: when the
    check at fragment count [k * b] blocks, the content a consumer has
    assembled by appending what it received is the text of the first
    [k * b - 1] fragments followed by the substitute text. *)
Theorem streamed_content_blocked (g : Guarded) (input : Input)
    (options : CallOptions) (n : nat) (msgs : list BaseMessage)
    (r r2 : GuardrailsResponse) (src : Source) (b k : nat) :
  g_chunkBatchSize g = Z.of_nat b ->
  (0 < b)%nat ->
  convertInputToChatMessages input = Return msgs ->
  prompt_verdict g msgs n = Return r ->
  is_blocking (action r) = false ->
  orig_stream (target g) input options = Return src ->
  (1 <= k)%nat ->
  (k * b <= length (src_chunks src))%nat ->
  (forall j, (1 <= j < k)%nat ->
             passes g msgs (text_of (firstn (j * b) (src_chunks src))) (n + j)) ->
  response_verdict g msgs (text_of (firstn (k * b) (src_chunks src))) (n + k)
    = Return r2 ->
  is_blocking (action r2) = true ->
  streamed_content (trace_of (run (guarded_stream g input options) n))
  = (text_of (firstn (k * b - 1) (src_chunks src))
     ++ or_default (revised_response r2) RESPONSE_OVERRIDE)%string.
Proof.
  intros HB Hb Hmsgs Hverdict Hpass Hsrc Hk HF Hchecks Hr2 Hblock.
  destruct (@stream_block_at_boundary g input options n msgs r r2 src b k
              HB Hb Hmsgs Hverdict Hpass Hsrc Hk HF Hchecks Hr2 Hblock)
    as [c [_ Hrun]].
  rewrite Hrun, streamed_content_text. unfold trace_of. cbn [fst snd].
  rewrite !yielded_app, pass_events_yielded. cbn [yielded app].
  apply text_of_snoc.
Qed.

(** X17: a response blocked only by the check after the end of the source
    has been delivered in full by then: the consumer received every
    fragment, then the substitute chunk, and the content it has assembled
    is the whole text of the model followed by the substitute text. *)
Theorem streamed_content_blocked_at_end (g : Guarded) (input : Input)
    (options : CallOptions) (n : nat) (msgs : list BaseMessage)
    (r r2 : GuardrailsResponse) (chunks : list AIMessageChunk) (b : nat) :
  g_chunkBatchSize g = Z.of_nat b ->
  (0 < b)%nat ->
  convertInputToChatMessages input = Return msgs ->
  prompt_verdict g msgs n = Return r ->
  is_blocking (action r) = false ->
  orig_stream (target g) input options = Return (mkSource chunks None) ->
  (length chunks mod b <> 0)%nat ->
  (forall j, (1 <= j)%nat -> (j * b <= length chunks)%nat ->
             passes g msgs (text_of (firstn (j * b) chunks)) (n + j)) ->
  response_verdict g msgs (text_of chunks) (n + (length chunks / b + 1))
    = Return r2 ->
  is_blocking (action r2) = true ->
  let tr := trace_of (run (guarded_stream g input options) n) in
  yielded tr
  = chunks
    ++ [new_AIMessageChunk (or_default (revised_response r2) RESPONSE_OVERRIDE)]
  /\ streamed_content tr
     = (text_of chunks ++ or_default (revised_response r2) RESPONSE_OVERRIDE)%string
  /\ result_of (run (guarded_stream g input options) n) = Return tt.
Proof.
  intros HB Hb Hmsgs Hverdict Hpass Hsrc Hmod Hchecks Hr2 Hblock tr.
  subst tr.
  rewrite (@stream_block_at_tail g input options n msgs r r2 chunks b
             HB Hb Hmsgs Hverdict Hpass Hsrc Hmod Hchecks Hr2 Hblock).
  rewrite streamed_content_text. unfold trace_of, result_of. cbn [fst snd].
  rewrite !yielded_app, pass_events_yielded. cbn [yielded app].
  split; [reflexivity|]. split; [apply text_of_snoc|reflexivity].
Qed.

End Properties.

(** ** Runs on scripted worlds *)

(** A blocked prompt, on [world_prompt_blocked]. *)
Lemma prompt_block_witness :
  convertInputToChatMessages (Collaborators := world_prompt_blocked) "hi"
    = Return ["hi"]
  /\ prompt_verdict (demo_guard world_prompt_blocked 0) ["hi"] 0
     = Return (mkGuardrailsResponse block (Some EmptyString) [])
  /\ result_of (run (guarded_invoke (demo_guard world_prompt_blocked 0) "hi" tt) 0)
     = Return (new_AIMessage "[Prompt intercepted: custom response]").
Proof.
  split; [reflexivity|]. split; [reflexivity|].
  apply (@prompt_block_short_circuits world_prompt_blocked
           (demo_guard world_prompt_blocked 0) "hi" tt 0 ["hi"]
           (mkGuardrailsResponse block (Some EmptyString) [])
           eq_refl eq_refl (or_introl eq_refl)).
Defined.

(** C1 as stated fails when the revision is the empty string: the revised
    text was supplied, and the content returned and streamed is the
    prompt override, not that text. *)
Lemma prompt_block_empty_revision :
  prompt_verdict (demo_guard world_prompt_blocked 0) ["hi"] 0
    = Return (mkGuardrailsResponse block (Some EmptyString) [])
  /\ result_of (run (guarded_invoke (demo_guard world_prompt_blocked 0) "hi" tt) 0)
     <> Return (new_AIMessage EmptyString)
  /\ yielded (trace_of
                (run (guarded_stream (demo_guard world_prompt_blocked 0) "hi" tt) 0))
     <> [new_AIMessageChunk EmptyString].
Proof.
  split; [reflexivity|]. split; vm_compute; discriminate.
Qed.

(** Five fragments in batches of two: checks after the second and the
    fourth fragment and after the end. *)
Lemma stream_all_pass_witness :
  g_chunkBatchSize (demo_guard world_all_pass 0) = Z.of_nat 2
  /\ (0 < 2)%nat
  /\ response_checks
       (trace_of (run (guarded_stream (demo_guard world_all_pass 0) "hi" tt) 0))
     = ["ab"; "abcd"; "abcde"]
  /\ yielded
       (trace_of (run (guarded_stream (demo_guard world_all_pass 0) "hi" tt) 0))
     = five.
Proof.
  split; [reflexivity|]. split; [lia|].
  assert (Hchecks : forall j, (1 <= j)%nat -> ((j - 1) * 2 < length five)%nat ->
            passes (demo_guard world_all_pass 0) ["hi"]
              (text_of (firstn (j * 2) five)) (0 + j)).
  { intros j _ _. exists (mkGuardrailsResponse passthrough None []).
    split; [|reflexivity].
    unfold response_verdict, result_of, run, validateWithGuardrails, bind,
      do_fetch, lift.
    cbn [fetch world_all_pass scripted script].
    destruct (0 + j)%nat as [|[|[|i]]]; reflexivity. }
  pose proof (@stream_all_pass world_all_pass (demo_guard world_all_pass 0)
                "hi" tt 0 ["hi"] (mkGuardrailsResponse passthrough None [])
                five 2 eq_refl ltac:(lia) eq_refl eq_refl eq_refl eq_refl Hchecks)
    as [_ [Hy [_ [Hc _]]]].
  split; [exact Hc|exact Hy].
Defined.

(** Five fragments in batches of two, the second check blocking. *)
Lemma stream_blocked_witness :
  g_chunkBatchSize (demo_guard world_blocked_at_four 0) = Z.of_nat 2
  /\ response_verdict (demo_guard world_blocked_at_four 0) ["hi"] "abcd" 2
     = Return (mkGuardrailsResponse block (Some "no") [])
  /\ yielded
       (trace_of
          (run (guarded_stream (demo_guard world_blocked_at_four 0) "hi" tt) 0))
     = [frag "a"; frag "b"; frag "c"; new_AIMessageChunk "no"]
  /\ consumed
       (trace_of
          (run (guarded_stream (demo_guard world_blocked_at_four 0) "hi" tt) 0))
     = [frag "a"; frag "b"; frag "c"; frag "d"].
Proof.
  split; [reflexivity|]. split; [reflexivity|].
  assert (Hchecks : forall j, (1 <= j < 2)%nat ->
            passes (demo_guard world_blocked_at_four 0) ["hi"]
              (text_of (firstn (j * 2) five)) (0 + j)).
  { intros j Hj. exists (mkGuardrailsResponse passthrough None []).
    split; [|reflexivity].
    replace j with 1%nat by lia. reflexivity. }
  pose proof (@stream_blocked_at_boundary world_blocked_at_four
                (demo_guard world_blocked_at_four 0) "hi" tt 0 ["hi"]
                (mkGuardrailsResponse passthrough None [])
                (mkGuardrailsResponse block (Some "no") [])
                (mkSource five None) 2 2
                eq_refl ltac:(lia) eq_refl eq_refl eq_refl eq_refl
                ltac:(lia) ltac:(cbn; lia) Hchecks eq_refl eq_refl)
    as [_ [Hy [Hc _]]].
  split; [exact Hy|exact Hc].
Defined.

(** C3 as stated fails: the check at fragment count 4 (k = 2, B = 2)
    blocks, and the stream has yielded three original fragments before the
    override chunk, not four. *)
Lemma stream_blocked_withholds_fragment :
  response_verdict (demo_guard world_blocked_at_four 0) ["hi"] "abcd" 2
    = Return (mkGuardrailsResponse block (Some "no") [])
  /\ yielded
       (trace_of
          (run (guarded_stream (demo_guard world_blocked_at_four 0) "hi" tt) 0))
     = firstn 3 five ++ [new_AIMessageChunk "no"]
  /\ yielded
       (trace_of
          (run (guarded_stream (demo_guard world_blocked_at_four 0) "hi" tt) 0))
     <> firstn (2 * 2) five ++ [new_AIMessageChunk "no"].
Proof.
  split; [reflexivity|]. split; [reflexivity|]. vm_compute. discriminate.
Qed.

(** A call that goes through unchanged. *)
Lemma invoke_passthrough_witness :
  prompt_verdict (demo_guard world_all_pass 0) ["hi"] 0
    = Return (mkGuardrailsResponse passthrough None [])
  /\ model_calls
       (trace_of (run (guarded_invoke (demo_guard world_all_pass 0) "hi" tt) 0))
     = [EvInvoke (W := world_all_pass) 0%nat "hi" tt]
  /\ result_of (run (guarded_invoke (demo_guard world_all_pass 0) "hi" tt) 0)
     = Return hello.
Proof.
  split; [reflexivity|].
  pose proof (@invoke_passthrough world_all_pass (demo_guard world_all_pass 0)
                "hi" tt 0 ["hi"] (mkGuardrailsResponse passthrough None [])
                eq_refl eq_refl eq_refl) as [Hcalls Hresult].
  split; [exact Hcalls|].
  apply (Hresult hello (mkGuardrailsResponse passthrough None []));
    reflexivity.
Defined.

(** A content-filter rejection and another error of the wrapped model. *)
Lemma invoke_model_error_witness :
  orig_invoke (Collaborators := world_content_filter) 0%nat "hi" tt
    = Throw (JsError "filtered" (Some (JString "content_filter")))
  /\ result_of
       (run (guarded_invoke (demo_guard world_content_filter 0) "hi" tt) 0)
     = Return (new_AIMessage "I'm sorry, but I can't assist with that request.")
  /\ result_of
       (run (guarded_invoke (demo_guard world_rate_limited 0) "hi" tt) 0)
     = Throw (JsError "too many requests" (Some (JString "rate_limit"))).
Proof.
  split; [reflexivity|]. split.
  - apply (proj1 (@invoke_model_error world_content_filter
                    (demo_guard world_content_filter 0) "hi" tt 0 ["hi"]
                    (mkGuardrailsResponse passthrough None [])
                    (JsError "filtered" (Some (JString "content_filter")))
                    eq_refl eq_refl eq_refl eq_refl)).
    reflexivity.
  - apply (proj2 (@invoke_model_error world_rate_limited
                    (demo_guard world_rate_limited 0) "hi" tt 0 ["hi"]
                    (mkGuardrailsResponse passthrough None [])
                    (JsError "too many requests" (Some (JString "rate_limit")))
                    eq_refl eq_refl eq_refl eq_refl)).
    reflexivity.
Defined.

(** A 503 from the validation service. *)
Lemma validate_non_success_witness :
  fetch (Collaborators := world_unavailable) 0
    (validation_request (W := world_unavailable) "proj" "key" ["hi"] EmptyString target_prompt None)
    = Return (mkResponse 503 "Service Unavailable" (Return JNull))
  /\ res_ok (mkResponse 503 "Service Unavailable" (Return JNull)) = false
  /\ run (validateWithGuardrails (W := world_unavailable) "proj" "key" ["hi"] EmptyString target_prompt None) 0
     = (Throw (JsError "Guardrails validation failed: 503 Service Unavailable" None),
        [EvFetch (W := world_unavailable)
           (mkRequest "https://gr-prd.aporia.com/proj/validate" "key"
              (mkPayload ["hi"] EmptyString target_prompt))],
        1%nat).
Proof.
  split; [reflexivity|]. split; [reflexivity|].
  apply (proj1 (@validate_non_success_throws world_unavailable "proj" "key"
                  ["hi"] EmptyString target_prompt None 0
                  (mkResponse 503 "Service Unavailable" (Return JNull))
                  eq_refl eq_refl)).
Defined.

(** A reply with two extra fields is accepted. *)
Lemma validate_schema_witness :
  fetch (Collaborators := world_verbose) 0
    (validation_request (W := world_verbose) "proj" "key" ["hi"] EmptyString target_prompt None)
    = reply_ok verbose_body
  /\ (exists r,
        result_of
          (run (validateWithGuardrails (W := world_verbose) "proj" "key" ["hi"] EmptyString
                target_prompt None) 0) = Return r).
Proof.
  split; [reflexivity|].
  apply (proj1 (proj2 (@validate_schema_error_iff world_verbose "proj" "key"
                         ["hi"] EmptyString target_prompt None 0
                         (mkResponse 200 "OK" (Return verbose_body))
                         verbose_body eq_refl eq_refl eq_refl))).
  split.
  - exists block. reflexivity.
  - right. exists "no". reflexivity.
Defined.

(** C5 as stated fails: the reply has a recognized action and no
    [revised_response] at all, and the parse fails with a schema error. *)
Lemma validate_rejects_missing_revision :
  fetch (Collaborators := world_bare) 0
    (validation_request (W := world_bare) "proj" "key" ["hi"] EmptyString target_prompt None)
    = reply_ok bare_body
  /\ recognized_action (field "action" bare_body)
  /\ string_or_absent (field "revised_response" bare_body)
  /\ result_of
       (run (validateWithGuardrails (W := world_bare) "proj" "key" ["hi"] EmptyString
             target_prompt None) 0)
     = Throw (ZodError [mkIssue invalid_type ["revised_response"]]).
Proof.
  split; [reflexivity|]. split; [exists passthrough; reflexivity|].
  split; [left; reflexivity|reflexivity].
Qed.

(** The derivatives of model 0 are model 1 under the same guard. *)
Lemma derived_models_witness :
  orig_withConfig (Collaborators := world_all_pass) 0%nat tt = Return 1%nat
  /\ run (guarded_withConfig (demo_guard world_all_pass 0) tt) 0
     = (Return (demo_guard world_all_pass 1),
        [EvWithConfig (W := world_all_pass) 0%nat tt], 0%nat)
  /\ exists f,
       guarded_bindTools (demo_guard world_all_pass 0) = Some f
       /\ run (f tt) 0
          = (Return (demo_guard world_all_pass 1),
             [EvBindTools (W := world_all_pass) 0%nat tt], 0%nat).
Proof.
  split; [reflexivity|].
  pose proof (@derived_models_rewrapped world_all_pass 0%nat demo_config)
    as [Hbind [Hconfig _]].
  split.
  - apply Hconfig. reflexivity.
  - apply (Hbind (fun _ => Return 1%nat) tt 1%nat 0%nat); reflexivity.
Defined.

(** With five fragments in batches of two, the check after the end submits
    the text of all five. *)
Lemma stream_checks_witness :
  orig_stream (Collaborators := world_all_pass) 0%nat "hi" tt
    = Return (mkSource five None)
  /\ response_checks
       (after_exhaustion
          (trace_of (run (guarded_stream (demo_guard world_all_pass 0) "hi" tt) 0)))
     = [text_of
          (consumed
             (trace_of
                (run (guarded_stream (demo_guard world_all_pass 0) "hi" tt) 0)))].
Proof.
  split; [reflexivity|].
  pose proof (@stream_checks_whole_text world_all_pass
                (demo_guard world_all_pass 0) "hi" tt 0) as [_ Htail].
  destruct (Htail ["hi"] (mkGuardrailsResponse passthrough None [])
              (mkSource five None) eq_refl eq_refl eq_refl eq_refl eq_refl)
    as [_ Htext].
  apply Htext. vm_compute. discriminate.
Defined.

(** Empty revisions at the prompt check, at the response check of a call
    and at the check after the end of a stream. *)
Lemma empty_revision_witness :
  (exists content,
     falls_back (Some EmptyString) "[Prompt intercepted: custom response]" content
     /\ result_of
          (run (guarded_invoke (demo_guard world_prompt_blocked 0) "hi" tt) 0)
        = Return (new_AIMessage content)
     /\ yielded
          (trace_of
             (run (guarded_stream (demo_guard world_prompt_blocked 0) "hi" tt) 0))
        = [new_AIMessageChunk content])
  /\ (exists content,
        falls_back (Some EmptyString) "[Response intercepted: custom override]"
          content
        /\ result_of
             (run (guarded_invoke (demo_guard world_response_blocked 0) "hi" tt) 0)
           = Return (new_AIMessage content))
  /\ (exists content,
        falls_back (Some EmptyString) "[Response intercepted: custom override]"
          content
        /\ yielded
             (trace_of
                (run (guarded_stream (demo_guard world_blocked_at_end 0) "hi" tt) 0))
           = five ++ [new_AIMessageChunk content]).
Proof.
  split; [|split].
  - apply (proj1 (@empty_revision_falls_back world_prompt_blocked
                    (demo_guard world_prompt_blocked 0) "hi" tt 0 ["hi"]
                    (mkGuardrailsResponse block (Some EmptyString) [])
                    eq_refl eq_refl)).
    reflexivity.
  - pose proof (proj2 (@empty_revision_falls_back world_response_blocked
                         (demo_guard world_response_blocked 0) "hi" tt 0 ["hi"]
                         (mkGuardrailsResponse passthrough None [])
                         eq_refl eq_refl) eq_refl) as [Hcall _].
    apply (Hcall hello (mkGuardrailsResponse rephrase (Some EmptyString) []));
      reflexivity.
  - pose proof (proj2 (@empty_revision_falls_back world_blocked_at_end
                         (demo_guard world_blocked_at_end 0) "hi" tt 0 ["hi"]
                         (mkGuardrailsResponse passthrough None [])
                         eq_refl eq_refl) eq_refl) as [_ [_ Htail]].
    apply (Htail five 2%nat
             (mkGuardrailsResponse modify (Some EmptyString) []));
      try reflexivity; try (cbn; lia).
    intros j Hj1 Hj2. exists (mkGuardrailsResponse passthrough None []).
    split; [|reflexivity].
    cbn [length five] in Hj2.
    assert (Hj : j = 1%nat \/ j = 2%nat) by lia.
    destruct Hj as [-> | ->]; reflexivity.
Defined.

(** ** Further runs on scripted worlds *)


(** The service is down at the prompt check: the call throws, the model is
    not called. *)
Lemma invoke_fails_closed_witness :
  prompt_verdict (demo_guard world_unavailable 0) ["hi"] 0
    = Throw (JsError "Guardrails validation failed: 503 Service Unavailable" None)
  /\ run (guarded_invoke (demo_guard world_unavailable 0) "hi" tt) 0
     = (Throw (JsError "Guardrails validation failed: 503 Service Unavailable"
                 None),
        [EvFetch (prompt_request (demo_guard world_unavailable 0) ["hi"])],
        1%nat).
Proof.
  split; [reflexivity|].
  apply (proj2 (proj2 (proj2 (proj2
           (@invoke_fails_closed world_unavailable
              (demo_guard world_unavailable 0) "hi" tt 0))))
           ["hi"]
           (JsError "Guardrails validation failed: 503 Service Unavailable" None));
    reflexivity.
Defined.

(** The service is down at the response check; the request of the
    response check is rejected with the content-filter code. *)
Lemma invoke_response_check_error_witness :
  response_verdict (demo_guard world_response_unavailable 0) ["hi"] "Hello!" 1
    = Throw (JsError "Guardrails validation failed: 503 Service Unavailable" None)
  /\ result_of
       (run (guarded_invoke (demo_guard world_response_unavailable 0) "hi" tt) 0)
     = Throw (JsError "Guardrails validation failed: 503 Service Unavailable"
                None)
  /\ result_of
       (run (guarded_invoke (demo_guard world_response_filtered 0) "hi" tt) 0)
     = Return (new_AIMessage "I'm sorry, but I can't assist with that request.").
Proof.
  split; [reflexivity|]. split.
  - apply (proj1 (proj2 (@invoke_response_check_error world_response_unavailable
                    (demo_guard world_response_unavailable 0) "hi" tt 0 ["hi"]
                    (mkGuardrailsResponse passthrough None []) hello
                    (JsError
                       "Guardrails validation failed: 503 Service Unavailable"
                       None)
                    eq_refl eq_refl eq_refl eq_refl eq_refl))).
    reflexivity.
  - apply (proj1 (proj2 (proj2 (@invoke_response_check_error
                    world_response_filtered
                    (demo_guard world_response_filtered 0) "hi" tt 0 ["hi"]
                    (mkGuardrailsResponse passthrough None []) hello
                    (JsError "blocked upstream" (Some (JString "content_filter")))
                    eq_refl eq_refl eq_refl eq_refl eq_refl)))).
    reflexivity.
Defined.

Lemma invoke_apology_unchecked_witness :
  orig_invoke (Collaborators := world_content_filter) 0%nat "hi" tt
    = Throw (JsError "filtered" (Some (JString "content_filter")))
  /\ requests
       (trace_of
          (run (guarded_invoke (demo_guard world_content_filter 0) "hi" tt) 0))
     = [prompt_request (demo_guard world_content_filter 0) ["hi"]].
Proof.
  split; [reflexivity|].
  apply (proj2 (@invoke_apology_unchecked world_content_filter
                  (demo_guard world_content_filter 0) "hi" tt 0 ["hi"]
                  (mkGuardrailsResponse passthrough None [])
                  (JsError "filtered" (Some (JString "content_filter")))
                  eq_refl eq_refl eq_refl eq_refl eq_refl)).
Defined.

(** The wrapped stream refuses to open with a content-filter error; the
    input cannot be converted. *)
Lemma stream_fails_closed_witness :
  orig_stream (Collaborators := world_stream_refused) 0%nat "hi" tt
    = Throw (JsError "filtered" (Some (JString "content_filter")))
  /\ result_of
       (run (guarded_stream (demo_guard world_stream_refused 0) "hi" tt) 0)
     = Throw (JsError "filtered" (Some (JString "content_filter")))
  /\ run (guarded_stream (demo_guard world_bad_input 0) "hi" tt) 0
     = (Throw (JsError "unsupported input" None), [], 0%nat).
Proof.
  split; [reflexivity|]. split.
  - rewrite (proj2 (proj2 (proj2 (proj2
               (@stream_fails_closed world_stream_refused
                  (demo_guard world_stream_refused 0) "hi" tt 0))))
               ["hi"] (mkGuardrailsResponse passthrough None [])
               (JsError "filtered" (Some (JString "content_filter")))
               eq_refl eq_refl eq_refl eq_refl).
    reflexivity.
  - apply (proj1 (proj2 (proj2
             (@stream_fails_closed world_bad_input
                (demo_guard world_bad_input 0) "hi" tt 0)))
             (JsError "unsupported input" None)).
    reflexivity.
Defined.

Lemma stream_yields_prefix_witness :
  orig_stream (Collaborators := world_blocked_at_four) 0%nat "hi" tt
    = Return (mkSource five None)
  /\ exists j k,
       (j <= k <= j + 1)%nat
       /\ consumed
            (trace_of
               (run (guarded_stream (demo_guard world_blocked_at_four 0)
                       "hi" tt) 0))
          = firstn k five.
Proof.
  split; [reflexivity|].
  destruct (@stream_yields_prefix world_blocked_at_four
              (demo_guard world_blocked_at_four 0) "hi" tt 0 ["hi"]
              (mkGuardrailsResponse passthrough None []) (mkSource five None)
              eq_refl eq_refl eq_refl eq_refl)
    as [j [k [Hjk [_ [Hc _]]]]].
  exists j, k. split; [exact Hjk|exact Hc].
Defined.

(** Five fragments in batches of two, the service failing at the second
    check. *)
Lemma stream_check_throws_witness :
  response_verdict (demo_guard world_check_fails_at_four 0) ["hi"] "abcd" 2
    = Throw (JsError "Guardrails validation failed: 503 Service Unavailable" None)
  /\ yielded
       (trace_of
          (run (guarded_stream (demo_guard world_check_fails_at_four 0)
                  "hi" tt) 0))
     = [frag "a"; frag "b"; frag "c"]
  /\ result_of
       (run (guarded_stream (demo_guard world_check_fails_at_four 0) "hi" tt) 0)
     = Throw (JsError "Guardrails validation failed: 503 Service Unavailable"
                None).
Proof.
  split; [reflexivity|].
  assert (Hchecks : forall j, (1 <= j < 2)%nat ->
            passes (demo_guard world_check_fails_at_four 0) ["hi"]
              (text_of (firstn (j * 2) five)) (0 + j)).
  { intros j Hj. exists (mkGuardrailsResponse passthrough None []).
    split; [|reflexivity].
    replace j with 1%nat by lia. reflexivity. }
  pose proof (@stream_check_throws_at_boundary world_check_fails_at_four
                (demo_guard world_check_fails_at_four 0) "hi" tt 0 ["hi"]
                (mkGuardrailsResponse passthrough None [])
                (mkSource five None) 2 2
                (JsError "Guardrails validation failed: 503 Service Unavailable"
                   None)
                eq_refl ltac:(lia) eq_refl eq_refl eq_refl eq_refl
                ltac:(lia) ltac:(cbn; lia) Hchecks eq_refl)
    as [Hres [Hy _]].
  split; [exact Hy|exact Hres].
Defined.

(** Five fragments, then the source throws. *)
Lemma stream_source_throws_witness :
  orig_stream (Collaborators := world_source_breaks) 0%nat "hi" tt
    = Return (mkSource five
                (Some (JsError "connection reset"
                         (Some (JString "content_filter")))))
  /\ yielded
       (trace_of
          (run (guarded_stream (demo_guard world_source_breaks 0) "hi" tt) 0))
     = five
  /\ response_checks
       (trace_of
          (run (guarded_stream (demo_guard world_source_breaks 0) "hi" tt) 0))
     = ["ab"; "abcd"]
  /\ result_of
       (run (guarded_stream (demo_guard world_source_breaks 0) "hi" tt) 0)
     = Throw (JsError "connection reset" (Some (JString "content_filter"))).
Proof.
  split; [reflexivity|].
  assert (Hchecks : forall j, (1 <= j)%nat -> (j * 2 <= length five)%nat ->
            passes (demo_guard world_source_breaks 0) ["hi"]
              (text_of (firstn (j * 2) five)) (0 + j)).
  { intros j _ _. exists (mkGuardrailsResponse passthrough None []).
    split; [|reflexivity].
    unfold response_verdict, result_of, run, validateWithGuardrails, bind,
      do_fetch, lift.
    cbn [fetch world_source_breaks scripted script].
    destruct (0 + j)%nat; reflexivity. }
  pose proof (@stream_source_throws world_source_breaks
                (demo_guard world_source_breaks 0) "hi" tt 0 ["hi"]
                (mkGuardrailsResponse passthrough None []) five 2
                (JsError "connection reset" (Some (JString "content_filter")))
                eq_refl ltac:(lia) eq_refl eq_refl eq_refl eq_refl Hchecks)
    as [Hres [Hy [Hc _]]].
  split; [exact Hy|]. split; [exact Hc|exact Hres].
Defined.

(** Batch size zero: one check, after the end. *)
Lemma stream_without_boundaries_witness :
  g_chunkBatchSize (withGuardrails (W := world_all_pass) 0%nat zero_batch_config)
    = 0%Z
  /\ response_checks
       (trace_of
          (run (guarded_stream
                  (withGuardrails (W := world_all_pass) 0%nat zero_batch_config)
                  "hi" tt) 0))
     = ["abcde"]
  /\ consumed
       (trace_of
          (run (guarded_stream
                  (withGuardrails (W := world_all_pass) 0%nat zero_batch_config)
                  "hi" tt) 0))
     = five.
Proof.
  split; [reflexivity|].
  pose proof (@stream_without_boundaries world_all_pass
                (withGuardrails (W := world_all_pass) 0%nat zero_batch_config)
                "hi" tt 0 ["hi"] (mkGuardrailsResponse passthrough None []) five
                eq_refl eq_refl eq_refl eq_refl
                ltac:(discriminate) (or_introl eq_refl))
    as [Hc [Hr _]].
  split; [exact Hr|exact Hc].
Defined.

Lemma requests_all_bound_witness :
  convertInputToChatMessages (Collaborators := world_all_pass) "hi"
    = Return ["hi"]
  /\ Forall (bound_for (demo_guard world_all_pass 0) ["hi"])
       (requests
          (trace_of (run (guarded_stream (demo_guard world_all_pass 0) "hi" tt) 0)))
  /\ length
       (requests
          (trace_of (run (guarded_stream (demo_guard world_all_pass 0) "hi" tt) 0)))
     = 4%nat.
Proof.
  split; [reflexivity|]. split; [|reflexivity].
  apply (proj1 (proj2 (proj2 (proj2
           (@requests_all_bound world_all_pass (demo_guard world_all_pass 0)
              "hi" tt 0 ["hi"] eq_refl))))).
Defined.

(** Three reconfigurations of model 0 in a row. *)
Lemma reconfigure_keeps_guard_witness :
  result_of (run (reconfigure (demo_guard world_all_pass 0) [tt; tt; tt]) 5)
    = Return (demo_guard world_all_pass 3)
  /\ g_chunkBatchSize (demo_guard world_all_pass 3) = 2%Z
  /\ g_baseUrl (demo_guard world_all_pass 3) = "https://gr-prd.aporia.com".
Proof.
  pose proof (@reconfigure_keeps_guard world_all_pass 0%nat demo_config
                [tt; tt; tt] 5) as [Hres [_ [_ [_ Hcfg]]]].
  split; [exact Hres|].
  destruct (Hcfg (demo_guard world_all_pass 3) Hres) as [_ [_ [HB Hbase]]].
  split; [exact HB|exact Hbase].
Defined.


Lemma streamed_content_blocked_witness :
  response_verdict (demo_guard world_blocked_at_four 0) ["hi"] "abcd" 2
    = Return (mkGuardrailsResponse block (Some "no") [])
  /\ streamed_content
       (trace_of
          (run (guarded_stream (demo_guard world_blocked_at_four 0) "hi" tt) 0))
     = "abcno".
Proof.
  split; [reflexivity|].
  assert (Hchecks : forall j, (1 <= j < 2)%nat ->
            passes (demo_guard world_blocked_at_four 0) ["hi"]
              (text_of (firstn (j * 2) five)) (0 + j)).
  { intros j Hj. exists (mkGuardrailsResponse passthrough None []).
    split; [|reflexivity].
    replace j with 1%nat by lia. reflexivity. }
  apply (@streamed_content_blocked world_blocked_at_four
           (demo_guard world_blocked_at_four 0) "hi" tt 0 ["hi"]
           (mkGuardrailsResponse passthrough None [])
           (mkGuardrailsResponse block (Some "no") [])
           (mkSource five None) 2 2
           eq_refl ltac:(lia) eq_refl eq_refl eq_refl eq_refl
           ltac:(lia) ltac:(cbn; lia) Hchecks eq_refl eq_refl).
Defined.

Lemma streamed_content_blocked_at_end_witness :
  response_verdict (demo_guard world_blocked_at_end 0) ["hi"] "abcde" 3
    = Return (mkGuardrailsResponse modify (Some EmptyString) [])
  /\ streamed_content
       (trace_of
          (run (guarded_stream (demo_guard world_blocked_at_end 0) "hi" tt) 0))
     = "abcde[Response intercepted: custom override]".
Proof.
  split; [reflexivity|].
  assert (Hchecks : forall j, (1 <= j)%nat -> (j * 2 <= length five)%nat ->
            passes (demo_guard world_blocked_at_end 0) ["hi"]
              (text_of (firstn (j * 2) five)) (0 + j)).
  { intros j Hj1 Hj2. exists (mkGuardrailsResponse passthrough None []).
    split; [|reflexivity].
    cbn [length five] in Hj2.
    assert (Hj : j = 1%nat \/ j = 2%nat) by lia.
    destruct Hj as [-> | ->]; reflexivity. }
  apply (proj1 (proj2 (@streamed_content_blocked_at_end world_blocked_at_end
           (demo_guard world_blocked_at_end 0) "hi" tt 0 ["hi"]
           (mkGuardrailsResponse passthrough None [])
           (mkGuardrailsResponse modify (Some EmptyString) [])
           five 2
           eq_refl ltac:(lia) eq_refl eq_refl eq_refl eq_refl
           ltac:(cbn; lia) Hchecks eq_refl eq_refl))).
Defined.
